(** * Association analysis (01_assoziation.py): itemset mining and rule scoring

    A shallow embedding of the mining core of [01_assoziation.py]:
    [generate_item_sets], [count_item_sets], [filter_item_sets],
    [generate_rules] and [analyze_associations], together with the facts the
    specification states about them.

    Modelling decisions.
    - An item is a Python [str], an itemset a Python tuple of [str]: a
      [list string].  A transaction is a list of items.
    - [itertools.combinations] is the Python library function; it is embedded
      by the usual position-wise recursion; [elem_of_combinations],
      [combinations_positions] and [combinations_lex] show that this
      recursion lists the length-[r] subsequences in the documented
      "lexicographic by position" order.
    - A Python [dict] iterates in insertion order, and the order of the rules
      depends on it: a dict is an association list with pairwise distinct
      keys, new keys are appended at the end.
    - Python [int] is [Z].
    - Python [float] arithmetic is kept abstract: the class [PyFloat] lists
      the operations the program uses, the class [PyFloatLaws] the few order
      facts about them that some theorems need.  Every law holds of binary64
      arithmetic with correctly rounded [int / int] as long as no quotient
      of two counts underflows to zero or overflows; nothing is assumed
      about products, which do underflow.  The exact rationals [Q] are an
      instance, and supply the concrete runs; binary64 itself is an instance
      of the operations, used to repeat the failing runs and for one run in
      which a product underflows.
    - A Python [set] of strings is a [gset string].
    - Exceptions ([KeyError], [ZeroDivisionError]) are values of an error
      monad; loops that append to the shared [rules] list thread it as
      state.
    - The module-level [min_support] and [min_conf] are parameters of the
      functions that read them. *)

From Stdlib Require Import QArith.
From Stdlib Require Import Floats.PrimFloat Numbers.Cyclic.Int63.Uint63.
From stdpp Require Import gmap strings list sorting lexico.

Local Open Scope Z_scope.

(** ** Python values *)

Abbreviation item := string.
Abbreviation itemset := (list string).
Abbreviation transaction := (list string).

(** Where a [ZeroDivisionError] was raised: by [int / int] ("division by
    zero") or by [float / float] ("float division by zero"). *)
Inductive zero_division := IntTrueDiv | FloatDiv.

Inductive exn :=
| KeyError (key : itemset)
| ZeroDivisionError (site : zero_division).

Inductive result (A : Type) :=
| Ok (a : A)
| Raise (e : exn).
Arguments Ok {A} a.
Arguments Raise {A} e.

Definition bind {A B} (m : result A) (k : A → result B) : result B :=
  match m with
  | Ok a => k a
  | Raise e => Raise e
  end.

Declare Scope py_scope.
Delimit Scope py_scope with py.
Notation "x <- m ;; k" := (bind m (λ x, k))
  (at level 100, m at next level, right associativity) : py_scope.
Local Open Scope py_scope.

(** [for a in xs: body], threading the state the body updates. *)
Fixpoint for_each {A S} (xs : list A) (body : A → S → result S) (s : S) : result S :=
  match xs with
  | [] => Ok s
  | a :: xs' => s' <- body a s ;; for_each xs' body s'
  end.

(** [[f(a) for a in xs]] for a body that may raise. *)
Fixpoint comprehension {A B} (f : A → result B) (xs : list A) : result (list B) :=
  match xs with
  | [] => Ok []
  | a :: xs' => b <- f a ;; bs <- comprehension f xs' ;; Ok (b :: bs)
  end.

(** [range(lo, hi)] for naturals. *)
Definition range (lo hi : nat) : list nat := seq lo (hi - lo).

(** ** itertools.combinations *)

(** [combinations(iterable, r)]: the length-[r] position-wise selections of
    the input, in lexicographic order of the selected positions. *)
Fixpoint combinations {A} (iterable : list A) (r : nat) : list (list A) :=
  match r, iterable with
  | O, _ => [[]]
  | S _, [] => []
  | S r', a :: rest => (cons a <$> combinations rest r') ++ combinations rest r
  end.

(** ** Floating point interface *)

Class PyFloat (F : Type) := {
  truediv : Z → Z → F;      (* int / int, divisor not 0 *)
  fdiv : F → F → F;         (* float / float, divisor not 0.0 *)
  fmul : F → F → F;         (* float * float *)
  fzero : F;                (* 0.0 *)
  fone : F;                 (* 1.0 *)
  fis_zero : F → bool;      (* x == 0.0 *)
  fge : F → F → bool;       (* x >= y *)
  flt : F → F → bool        (* x < y *)
}.

Class PyFloatLaws (F : Type) {ops : PyFloat F} : Prop := {
  fge_trans a b c : fge a b = true → fge b c = true → fge a c = true;
  truediv_fge_refl a b : b ≠ 0 → fge (truediv a b) (truediv a b) = true;
  truediv_mono a b n :
    0 < n → a ≤ b → fge (truediv b n) (truediv a n) = true;
  truediv_pos a b : 0 < a → 0 < b → flt fzero (truediv a b) = true;
  truediv_le_one a b : 0 < a → a ≤ b → fge fone (truediv a b) = true
}.

(** ** Dictionaries in insertion order *)

Abbreviation dict V := (list (list string * V)).

Fixpoint dict_get {V} (d : dict V) (k : itemset) : option V :=
  match d with
  | [] => None
  | (k', v) :: d' => if decide (k' = k) then Some v else dict_get d' k
  end.

(** [d[k] = v]: an existing key keeps its place, a new key goes last. *)
Fixpoint dict_setitem {V} (d : dict V) (k : itemset) (v : V) : dict V :=
  match d with
  | [] => [(k, v)]
  | (k', v') :: d' =>
      if decide (k' = k) then (k', v) :: d' else (k', v') :: dict_setitem d' k v
  end.

(** [d[k]] on a plain dict. *)
Definition dict_getitem {V} (d : dict V) (k : itemset) : result V :=
  match dict_get d k with
  | Some v => Ok v
  | None => Raise (KeyError k)
  end.

(** [d[k]] on a [defaultdict(int)]: a missing key is first stored with 0. *)
Definition defaultdict_getitem (d : dict Z) (k : itemset) : Z * dict Z :=
  match dict_get d k with
  | Some v => (v, d)
  | None => (0, dict_setitem d k 0)
  end.

(** [d[k] += 1] on a [defaultdict(int)]. *)
Definition increment (d : dict Z) (k : itemset) : dict Z :=
  let '(v, d') := defaultdict_getitem d k in dict_setitem d' k (v + 1).

Definition dict_keys {V} (d : dict V) : list itemset := d.*1.

(** ** The mining core *)

Definition generate_item_sets {A} (transaction : list A) (max_length : nat)
  : list (list A) :=
  fold_left (λ item_sets i, item_sets ++ combinations transaction i)
    (range 1 (max_length + 1)) [].

Definition count_item_sets (transactions : list transaction) : dict Z :=
  fold_left
    (λ item_set_counts (transaction : list item),
       fold_left increment
         (generate_item_sets transaction (length transaction)) item_set_counts)
    transactions [].

(** A rule: the dict with keys ['x'], ['y/x'], ['conf'] and ['lift']. *)
Record rule (F : Type) := Rule {
  rule_x : itemset;
  rule_y : gset item;
  rule_conf : F;
  rule_lift : F
}.
Arguments Rule {F}.
Arguments rule_x {F}.
Arguments rule_y {F}.
Arguments rule_conf {F}.
Arguments rule_lift {F}.

Section Core.
Context {F : Type} {ops : PyFloat F}.

(** The module-level configuration values. *)
Variables (min_support min_conf : F).

(** [a / b] on ints. *)
Definition int_truediv (a b : Z) : result F :=
  if decide (b = 0) then Raise (ZeroDivisionError IntTrueDiv)
  else Ok (truediv a b).

(** [a / b] on floats. *)
Definition float_truediv (a b : F) : result F :=
  if fis_zero b then Raise (ZeroDivisionError FloatDiv) else Ok (fdiv a b).

(** [math.prod] of a list of floats (start value 1). *)
Definition math_prod (xs : list F) : F := fold_left fmul xs fone.

Fixpoint filter_item_sets (item_set_counts : dict Z) (total_transactions : Z)
  : result (dict Z) :=
  match item_set_counts with
  | [] => Ok []
  | (item_set, count) :: rest =>
      support <- int_truediv count total_transactions ;;
      kept <- filter_item_sets rest total_transactions ;;
      Ok (if fge support min_support then (item_set, count) :: kept else kept)
  end.

Definition generate_rules (frequent_item_sets : dict Z) (total_transactions : Z)
  : result (list (rule F)) :=
  for_each (dict_keys frequent_item_sets) (λ item_set rules,
    for_each (range 1 (length item_set)) (λ i rules,
      let antecedents := combinations item_set i in
      supports <- comprehension (λ x,
          c <- dict_getitem frequent_item_sets x ;;
          int_truediv c total_transactions) antecedents ;;
      let antecedentFreqProd := math_prod supports in
      for_each antecedents (λ x rules,
        let y : gset item := list_to_set item_set ∖ list_to_set x in
        cs <- dict_getitem frequent_item_sets item_set ;;
        s <- int_truediv cs total_transactions ;;
        lift <- float_truediv s antecedentFreqProd ;;
        cs' <- dict_getitem frequent_item_sets item_set ;;
        cx <- dict_getitem frequent_item_sets x ;;
        confidence <- int_truediv cs' cx ;;
        if fge confidence min_conf
        then Ok (rules ++ [Rule x y confidence lift])
        else Ok rules) rules) rules) [].

Definition analyze_associations (cells : list transaction)
  : result (list (rule F)) :=
  let item_set_counts := count_item_sets cells in
  let total_transactions := Z.of_nat (length cells) in
  frequent_item_sets <- filter_item_sets item_set_counts total_transactions ;;
  generate_rules frequent_item_sets total_transactions.

End Core.

(** ** Exact rationals as an instance of the interface *)

#[export] Instance Q_PyFloat : PyFloat Q := {|
  truediv a b := Qred (inject_Z a / inject_Z b);
  fdiv x y := Qred (x / y);
  fmul x y := Qred (x * y);
  fzero := 0%Q;
  fone := 1%Q;
  fis_zero x := Qeq_bool x 0;
  fge x y := Qle_bool y x;
  flt x y := negb (Qle_bool y x)
|}.

(** ** Binary64 as an instance of the operations *)

(** [float(a)], exact for ints of magnitude below [2^53]; for such ints
    [a / b] is the correctly rounded quotient of the two floats. *)
Definition float_of_int (a : Z) : float :=
  if a <? 0 then PrimFloat.opp (PrimFloat.of_uint63 (Uint63.of_Z (- a)))
  else PrimFloat.of_uint63 (Uint63.of_Z a).

#[export] Instance binary64_PyFloat : PyFloat float := {|
  truediv a b := PrimFloat.div (float_of_int a) (float_of_int b);
  fdiv x y := PrimFloat.div x y;
  fmul x y := PrimFloat.mul x y;
  fzero := PrimFloat.zero;
  fone := PrimFloat.one;
  fis_zero x := PrimFloat.eqb x PrimFloat.zero;
  fge x y := PrimFloat.leb y x;
  flt x y := PrimFloat.ltb x y
|}.

(** Sample items and the configuration of the repository's defaults. *)
Definition a_ : item := "a"%string.
Definition b_ : item := "b"%string.
Definition c_ : item := "c"%string.
Definition default_min_support : Q := (1 # 2)%Q.
Definition default_min_conf : Q := (3 # 4)%Q.

(** A filtered mapping and the rules it yields at [min_conf = 0.75] with 3
    transactions, used for concrete runs. *)
Definition sample_frequent : dict Z :=
  [([a_], 3); ([b_], 2); ([a_; b_], 2)].
Definition sample_rules : list (rule Q) :=
  [Rule [b_] (list_to_set [a_; b_] ∖ list_to_set [b_]) 1%Q 1%Q].


(** Three baskets without repeated items and the rules that the default
    thresholds give for them. *)
Definition sample_transactions : list transaction :=
  [[a_; b_]; [a_; b_; c_]; [a_; c_]].
Definition sample_analysis : list (rule Q) :=
  [Rule [b_] (list_to_set [a_; b_] ∖ list_to_set [b_]) 1%Q 1%Q;
   Rule [c_] (list_to_set [a_; c_] ∖ list_to_set [c_]) 1%Q 1%Q].

(** Baskets with a repeated item. *)
Definition repeated_transactions : list transaction :=
  [[a_; b_; b_]; [c_]; [c_]; [c_]].

(** The end-to-end example of the specification, rows sorted as the loader
    sorts them. *)
Definition beer : item := "beer"%string.
Definition bread : item := "bread"%string.
Definition cola : item := "cola"%string.
Definition diaper : item := "diaper"%string.
Definition eggs : item := "eggs"%string.
Definition milk : item := "milk"%string.
Definition basket_transactions : list transaction :=
  [[bread; milk]; [beer; bread; diaper; eggs]; [beer; cola; diaper; milk];
   [beer; bread; diaper; milk]; [bread; cola; diaper; milk]].

(** 65535 baskets with the one item "z" and one basket with the eight items
    "a" to "h": every subset of the eight items has support [2^-16]. *)
Definition wide_transactions : list transaction :=
  replicate (Z.to_nat 65535) ["z"%string]
  ++ [(λ n, String (Ascii.ascii_of_nat (97 + n)) EmptyString) <$> seq 0 8].

(** ** Specification vocabulary *)

(** Lexicographic order on position lists. *)
Inductive lex_lt : list nat → list nat → Prop :=
| lex_lt_nil q qs : lex_lt [] (q :: qs)
| lex_lt_head p q ps qs : (p < q)%nat → lex_lt (p :: ps) (q :: qs)
| lex_lt_tail p ps qs : lex_lt ps qs → lex_lt (p :: ps) (p :: qs).

(** Shorter selections first, selections of one size lexicographically. *)
Definition shortlex_lt (p q : list nat) : Prop :=
  (length p < length q)%nat ∨ (length p = length q ∧ lex_lt p q).

(** The items of [t] at the positions [p]. *)
Definition select (t : transaction) (p : list nat) : itemset :=
  (λ i, nth i t EmptyString) <$> p.

(** [count(I)]: the value stored for [I], 0 when [I] is not a key. *)
Definition count_of (d : dict Z) (k : itemset) : Z := default 0 (dict_get d k).

(** How often [k] occurs in an enumeration. *)
Definition occurrences (k : itemset) (l : list itemset) : nat :=
  length (filter (λ k', k' = k) l).

(** A transaction contains an itemset: the itemset is a non-empty
    subsequence of it. *)
Definition contains (t : transaction) (k : itemset) : Prop :=
  k ≠ [] ∧ k `sublist_of` t.

(** Greedy subsequence test. *)
Fixpoint is_subsequence (k t : list item) : bool :=
  match k, t with
  | [], _ => true
  | _ :: _, [] => false
  | a :: k', b :: t' =>
      if decide (a = b) then is_subsequence k' t' else is_subsequence k t'
  end.

(** The entry of an itemset that was counted [n] times: none for 0. *)
Definition tally (n : nat) : option Z :=
  if decide (n = 0%nat) then None else Some (Z.of_nat n).

Section RuleVocabulary.
Context {F : Type} {ops : PyFloat F}.

(** An entry meets the support threshold. *)
Definition meets_support (min_support : F) (total : Z) (entry : itemset * Z)
  : Prop :=
  fge (truediv entry.2 total) min_support = true.

(** The pairs (frequent itemset, candidate antecedent) in the order the
    loops of [generate_rules] visit them: by itemset in the iteration
    order of the mapping, then by antecedent size, then in the order
    [combinations] lists the candidates of that size. *)
Definition candidates (frequent : dict Z) : list (itemset * itemset) :=
  dict_keys frequent ≫= λ item_set,
    range 1 (length item_set) ≫= λ i,
      pair item_set <$> combinations item_set i.

(** [count(S) / count(x)]. *)
Definition confidence_of (frequent : dict Z) (item_set x : itemset) : F :=
  truediv (count_of frequent item_set) (count_of frequent x).

(** [D_i]: the product of the relative supports of all size-[i]
    sub-combinations of the itemset. *)
Definition slice_denominator (frequent : dict Z) (total : Z)
    (item_set : itemset) (i : nat) : F :=
  math_prod ((λ c, truediv (count_of frequent c) total)
               <$> combinations item_set i).

(** [(count(S) / total) / D_i]. *)
Definition lift_of (frequent : dict Z) (total : Z)
    (item_set : itemset) (i : nat) : F :=
  fdiv (truediv (count_of frequent item_set) total)
       (slice_denominator frequent total item_set i).

(** A candidate meets the confidence threshold. *)
Definition meets_conf (min_conf : F) (frequent : dict Z)
    (c : itemset * itemset) : Prop :=
  fge (confidence_of frequent c.1 c.2) min_conf = true.

(** The rule a candidate gives rise to. *)
Definition rule_of (frequent : dict Z) (total : Z) (c : itemset * itemset)
  : rule F :=
  Rule c.2 (list_to_set c.1 ∖ list_to_set c.2)
    (confidence_of frequent c.1 c.2)
    (lift_of frequent total c.1 (length c.2)).

#[export] Instance meets_support_dec min_support total entry :
  Decision (meets_support min_support total entry).
Proof. unfold meets_support. apply _. Defined.

#[export] Instance meets_conf_dec min_conf frequent c :
  Decision (meets_conf min_conf frequent c).
Proof. unfold meets_conf. apply _. Defined.
End RuleVocabulary.

(** Python's order on [str]: lexicographic on the code points. *)
Definition str_lt (s1 s2 : item) : Prop :=
  lexico (Ascii.nat_of_ascii <$> String.list_ascii_of_string s1)
         (Ascii.nat_of_ascii <$> String.list_ascii_of_string s2).

(** The distinct elements of an enumeration, each at the place of its first
    occurrence. *)
Fixpoint first_occurrences (ks : list itemset) : list itemset :=
  match ks with
  | [] => []
  | k :: ks' => k :: filter (λ k', k' ≠ k) (first_occurrences ks')
  end.

(** ** The script around the mining core *)

(** The exceptions of the start-up code and of the loader. *)
Inductive script_exn := IndexError | ValueError.

(** A Python [str] is read as its sequence of code points, all below 256. *)
Definition code_point (c : Ascii.ascii) : nat := Ascii.nat_of_ascii c.

(** The line boundaries of [str.splitlines] among the code points below
    256: LF, VT, FF, CR, FS, GS, RS and NEL. *)
Definition is_line_boundary (c : Ascii.ascii) : bool :=
  bool_decide (code_point c ∈ [10; 11; 12; 13; 28; 29; 30; 133]%nat).

(** [s.splitlines()]: CR LF is one boundary, and a boundary at the very end
    opens no further line. *)
Fixpoint splitlines (s : string) : list string :=
  match s with
  | EmptyString => []
  | String c s' =>
      if is_line_boundary c then
        EmptyString ::
          match s' with
          | String c' s'' =>
              if bool_decide (code_point c = 13%nat ∧ code_point c' = 10%nat)
              then splitlines s'' else splitlines s'
          | EmptyString => []
          end
      else
        match splitlines s' with
        | [] => [String c EmptyString]
        | line :: lines => String c line :: lines
        end
  end.

(** [s.split(sep)] for a separator of one character. *)
Fixpoint split (sep : Ascii.ascii) (s : string) : list string :=
  match s with
  | EmptyString => [EmptyString]
  | String c s' =>
      if decide (c = sep) then EmptyString :: split sep s'
      else
        match split sep s' with
        | [] => [String c EmptyString]
        | cell :: cells => String c cell :: cells
        end
  end.

(** [l.remove(x)]: drops the first element equal to [x]; [None] is the
    [ValueError] for an absent [x]. *)
Fixpoint list_remove {A} `{EqDecision A} (x : A) (l : list A) : option (list A) :=
  match l with
  | [] => None
  | y :: l' => if decide (y = x) then Some l' else cons y <$> list_remove x l'
  end.

#[export] Instance str_lt_dec (s1 s2 : item) : Decision (str_lt s1 s2).
Proof. unfold str_lt. apply _. Defined.

(** [not (s2 < s1)], the order in which [list.sort] leaves neighbours. *)
Definition str_le (s1 s2 : item) : Prop := ¬ str_lt s2 s1.

#[export] Instance str_le_dec (s1 s2 : item) : Decision (str_le s1 s2).
Proof. unfold str_le. apply _. Defined.

(** [cell.sort()] on a list of [str]: the ascending rearrangement (there is
    only one, see [list_sort_unique]). *)
Definition list_sort (cell : list item) : list item := merge_sort str_le cell.

Definition comma : Ascii.ascii := Ascii.ascii_of_nat 44.

Definition split_cells (csv : string) : script_exn + list (list item) :=
  let lines := splitlines csv in
  let cells := split comma <$> lines in
  match cells with
  | [] => inl IndexError
  | first :: _ =>
      match list_remove first cells with
      | None => inl ValueError
      | Some cells => inr (list_sort <$> cells)
      end
  end.

(** The values that the start-up code leaves in [csv_rel_path],
    [min_support] and [min_conf]. *)
Record arguments (F : Type) := Arguments {
  arg_csv_rel_path : string;
  arg_min_support : F;
  arg_min_conf : F
}.
Arguments Arguments {F}.
Arguments arg_csv_rel_path {F}.
Arguments arg_min_support {F}.
Arguments arg_min_conf {F}.

(** [sys.argv[i]]. *)
Definition argv_getitem (argv : list string) (i : nat) : script_exn + string :=
  match argv !! i with
  | Some a => inr a
  | None => inl IndexError
  end.

(** The "Read arguments" block; [float] is Python's [float(str)], [None]
    its [ValueError]. *)
Definition read_arguments {F} (float : string → option F)
    (defaults : arguments F) (argv : list string) : script_exn + arguments F :=
  if decide (2 < length argv)%nat then
    match argv_getitem argv 1 with
    | inl e => inl e
    | inr path =>
        match argv_getitem argv 2 with
        | inl e => inl e
        | inr a2 =>
            match float a2 with
            | None => inl ValueError
            | Some min_support =>
                match argv_getitem argv 3 with
                | inl e => inl e
                | inr a3 =>
                    match float a3 with
                    | None => inl ValueError
                    | Some min_conf => inr (Arguments path min_support min_conf)
                    end
                end
            end
        end
    end
  else inr defaults.

(** The set of items that [output] prints:
    [set([line for cell in cells for line in cell])]. *)
Definition output_items (cells : list (list item)) : gset item :=
  list_to_set (cells ≫= λ cell, cell ≫= λ line, [line]).

(** Whether a run raised, and what. *)
Definition raised {A} (r : result A) : option exn :=
  match r with
  | Ok _ => None
  | Raise e => Some e
  end.

(** A stand-in for [float(str)] that reads two numerals. *)
Definition sample_float (s : string) : option Q :=
  if decide (s = "0.25"%string) then Some (1 # 4)%Q
  else if decide (s = "0.5"%string) then Some (1 # 2)%Q
  else None.

(** A CSV text of four rows. *)
Definition sample_csv : string :=
  String.concat (String (Ascii.ascii_of_nat 10) EmptyString)
    ["items"; "b,a"; "c,a,b"; "a,c"]%string.

(** ** Facts about [combinations] *)

Section Combinations.
Context {A : Type}.
Implicit Types (l x : list A) (r : nat).
Local Open Scope nat_scope.

Lemma combinations_nil_r l : combinations l 0 = [[]].
Proof. by destruct l. Qed.

Lemma combinations_cons a l r :
  combinations (a :: l) (S r)
  = (cons a <$> combinations l r) ++ combinations l (S r).
Proof. done. Qed.

Lemma combinations_length l r x : x ∈ combinations l r → length x = r.
Proof.
  revert r x. induction l as [|a l IH]; intros [|r] x; simpl.
  - by intros ->%list_elem_of_singleton.
  - by intros ?%elem_of_nil.
  - by intros ->%list_elem_of_singleton.
  - rewrite elem_of_app, list_elem_of_fmap.
    intros [(x' & -> & Hx')|Hx]; simpl; eauto.
Qed.

Lemma combinations_sublist l r x : x ∈ combinations l r → x `sublist_of` l.
Proof.
  revert r x. induction l as [|a l IH]; intros [|r] x; simpl.
  - by intros ->%list_elem_of_singleton.
  - by intros ?%elem_of_nil.
  - intros ->%list_elem_of_singleton. apply sublist_nil_l.
  - rewrite elem_of_app, list_elem_of_fmap.
    intros [(x' & -> & Hx')|Hx].
    + apply sublist_skip; eauto.
    + apply sublist_cons; eauto.
Qed.

Lemma sublist_combinations l x : x `sublist_of` l → x ∈ combinations l (length x).
Proof.
  induction 1 as [|a x l _ IH|a x l _ IH]; simpl.
  - apply list_elem_of_singleton; done.
  - apply elem_of_app; left. apply list_elem_of_fmap; eauto.
  - destruct x as [|b x]; simpl in *.
    + apply list_elem_of_singleton; done.
    + apply elem_of_app; by right.
Qed.

(** [combinations l r] lists the subsequences of [l] of length [r]. *)
Lemma elem_of_combinations l r x :
  x ∈ combinations l r ↔ x `sublist_of` l ∧ length x = r.
Proof.
  split.
  - eauto using combinations_sublist, combinations_length.
  - intros [? <-]. by apply sublist_combinations.
Qed.

Lemma combinations_too_long l r : length l < r → combinations l r = [].
Proof.
  revert r. induction l as [|a l IH]; intros [|r] ?; simpl in *; try lia; [done|].
  rewrite !IH by lia. done.
Qed.

Lemma combinations_all l : combinations l (length l) = [l].
Proof.
  induction l as [|a l IH]; simpl; [done|].
  rewrite IH, combinations_too_long by lia. done.
Qed.

Lemma NoDup_combinations l r : NoDup l → NoDup (combinations l r).
Proof.
  intros Hl. revert r. induction Hl as [|a l Ha _ IH]; intros [|r]; simpl.
  - apply NoDup_singleton.
  - apply NoDup_nil_2.
  - apply NoDup_singleton.
  - apply NoDup_app. split_and!.
    + apply NoDup_fmap_2; [|done]. by intros ?? [=].
    + intros x (x' & -> & _)%list_elem_of_fmap Hx%combinations_sublist.
      apply Ha. eapply sublist_subseteq; [done|]. left.
    + done.
Qed.
End Combinations.

Section CombinationsCount.
Context {A : Type}.
Implicit Types (l : list A) (r m : nat).
Local Open Scope nat_scope.

(** Number of selections of size below [m]. *)
Let below l m := sum_list_with (λ r, length (combinations l r)) (seq 0 m).

Lemma below_S l m : below l (S m) = below l m + length (combinations l m).
Proof.
  unfold below. rewrite seq_S, sum_list_with_app. simpl. lia.
Qed.

Lemma below_cons a l m : below (a :: l) (S m) = below l m + below l (S m).
Proof.
  induction m as [|m IH].
  - unfold below; simpl. by rewrite combinations_nil_r.
  - rewrite below_S, IH, (below_S l (S m)), (below_S l m).
    rewrite combinations_cons, length_app, length_fmap. lia.
Qed.

Lemma below_saturates l m : length l < m → below l m = below l (S (length l)).
Proof.
  induction m as [|m IH]; [lia|]. intros Hm.
  destruct (decide (length l = m)) as [->|]; [done|].
  rewrite below_S, combinations_too_long, IH by lia. simpl. lia.
Qed.

Lemma below_all l : below l (S (length l)) = 2 ^ length l.
Proof.
  induction l as [|a l IH]; [done|].
  cbn [length]. rewrite below_cons, (below_saturates l (S (S (length l)))) by lia.
  rewrite IH, Nat.pow_succ_r'. lia.
Qed.

(** There are [2 ^ n - 1] non-empty selections from [n] positions. *)
Lemma combinations_total l :
  sum_list_with (λ r, length (combinations l r)) (seq 1 (length l))
  = 2 ^ length l - 1.
Proof.
  pose proof (below_all l) as Hb. unfold below in Hb.
  rewrite <-cons_seq in Hb. simpl in Hb.
  rewrite combinations_nil_r in Hb. simpl in Hb. lia.
Qed.

Lemma combinations_fmap {B} (f : A → B) l r :
  combinations (f <$> l) r = fmap (M:=list) f <$> combinations l r.
Proof.
  revert r. induction l as [|a l IH]; intros [|r]; simpl; try done.
  rewrite !IH, fmap_app, <-!list_fmap_compose. done.
Qed.
End CombinationsCount.

Section Positions.
Local Open Scope nat_scope.
Implicit Types (p q : list nat) (n r : nat).

Lemma StronglySorted_weaken {A} (R R' : relation A) (l : list A) :
  (∀ x y, x ∈ l → y ∈ l → R x y → R' x y) →
  StronglySorted R l → StronglySorted R' l.
Proof.
  intros HR Hl. induction Hl as [|x l Hl IH Hx]; constructor.
  - apply IH. intros ?????. apply HR; by try right.
  - apply Forall_forall. intros y Hy. apply HR; [left|by right|].
    by eapply Forall_forall in Hx.
Qed.

Lemma StronglySorted_sublist {A} (R : relation A) (l k : list A) :
  l `sublist_of` k → StronglySorted R k → StronglySorted R l.
Proof.
  induction 1 as [|x l k Hs IH|x l k Hs IH]; intros Hk; [done|..].
  - apply StronglySorted_inv in Hk as [Hk Hx]. constructor; [auto|].
    apply Forall_forall. intros y Hy. eapply Forall_forall in Hx; [done|].
    by eapply sublist_subseteq.
  - apply StronglySorted_inv in Hk as [Hk _]. auto.
Qed.

(** Selections from increasing positions come out in lexicographic order. *)
Lemma combinations_lex (l : list nat) r :
  StronglySorted lt l → StronglySorted lex_lt (combinations l r).
Proof.
  intros Hl. revert r. induction Hl as [|a l Hl IH Ha]; intros [|r]; simpl.
  - repeat constructor.
  - constructor.
  - repeat constructor.
  - apply StronglySorted_app_2; [| |done];
      [|apply StronglySorted_fmap with (R1 := lex_lt); [by constructor|done]].
    intros ? q (p & -> & _)%list_elem_of_fmap Hq.
    pose proof (combinations_length _ _ _ Hq) as Hlen.
    apply combinations_sublist in Hq.
    destruct q as [|b q]; [done|]. apply lex_lt_head.
    eapply Forall_forall in Ha; [done|].
    eapply sublist_subseteq; [done|]. left.
Qed.

Lemma StronglySorted_lt_seq j n : StronglySorted lt (seq j n).
Proof.
  revert j. induction n as [|n IH]; intros j; simpl; constructor; [done|].
  apply Forall_forall. intros k Hk%elem_of_seq. lia.
Qed.

(** Size by size, the enumeration is in short-lex order. *)
Lemma bind_shortlex (g : nat → list (list nat)) j n :
  (∀ i, StronglySorted lex_lt (g i)) →
  (∀ i p, p ∈ g i → length p = i) →
  StronglySorted shortlex_lt (seq j n ≫= g).
Proof.
  intros Hsorted Hlen. revert j. induction n as [|n IH]; intros j; simpl.
  - constructor.
  - apply StronglySorted_app_2; [| |done].
    + intros p q Hp (i & Hq & Hi%elem_of_seq)%list_elem_of_bind.
      left. rewrite (Hlen _ _ Hp), (Hlen _ _ Hq). lia.
    + eapply StronglySorted_weaken; [|done].
      intros p q Hp Hq ?. right. by rewrite (Hlen _ _ Hp), (Hlen _ _ Hq).
Qed.

Lemma select_seq (t : transaction) : select t (seq 0 (length t)) = t.
Proof.
  unfold select. induction t as [|a t IH]; [done|].
  cbn [length seq fmap list_fmap nth]. f_equal.
  rewrite <-fmap_S_seq, <-list_fmap_compose. done.
Qed.

(** [combinations] acts on positions: the selections of [t] are the
    selections of positions, read off [t]. *)
Lemma combinations_positions (t : transaction) r :
  combinations t r = select t <$> combinations (seq 0 (length t)) r.
Proof.
  rewrite <-(select_seq t) at 1. apply combinations_fmap.
Qed.
End Positions.

(** ** Facts about [generate_item_sets] *)

Lemma fold_left_extend {A B} (g : B → list A) (l : list B) (acc : list A) :
  fold_left (λ acc i, acc ++ g i) l acc = acc ++ (l ≫= g).
Proof.
  revert acc. induction l as [|b l IH]; intros acc; simpl.
  - by rewrite app_nil_r.
  - by rewrite IH, app_assoc.
Qed.

Lemma generate_item_sets_bind {A} (t : list A) (max_length : nat) :
  generate_item_sets t max_length = seq 1 max_length ≫= combinations t.
Proof.
  unfold generate_item_sets, range. rewrite fold_left_extend. simpl.
  do 2 f_equal. lia.
Qed.

Lemma is_subsequence_spec (k t : list item) :
  is_subsequence k t = true ↔ k `sublist_of` t.
Proof.
  revert k. induction t as [|b t IH]; intros [|a k]; simpl.
  - split; [constructor|done].
  - split; [done|]. by intros ?%sublist_nil_r.
  - split; [intros _; apply sublist_nil_l|done].
  - case_decide as Hab; [subst b|]; rewrite IH.
    + split; [by apply sublist_skip|].
      intros [Hs|(k' & [= ->] & Hs)]%sublist_cons_r; [|done].
      etrans; [|done]. by apply sublist_cons.
    + split; [by apply sublist_cons|].
      intros [Hs|(k' & [= -> ->] & Hs)]%sublist_cons_r; done.
Qed.

#[export] Instance sublist_item_dec (k t : list item) : Decision (k `sublist_of` t).
Proof.
  refine (cast_if (decide (is_subsequence k t = true)));
    abstract (by rewrite <-is_subsequence_spec).
Defined.

#[export] Instance contains_dec t k : Decision (contains t k).
Proof. unfold contains. apply _. Defined.

(** The enumerated itemsets are the non-empty subsequences. *)
Lemma elem_of_generate_item_sets (t : transaction) (k : itemset) :
  k ∈ generate_item_sets t (length t) ↔ contains t k.
Proof.
  rewrite generate_item_sets_bind, list_elem_of_bind. unfold contains. split.
  - intros (r & [Hs Hlen]%elem_of_combinations & Hr%elem_of_seq).
    split; [|done]. intros ->. simpl in *. lia.
  - intros [Hne Hs]. exists (length k). split; [by apply elem_of_combinations|].
    apply elem_of_seq. apply sublist_length in Hs.
    destruct k; [done|]. simpl in *. lia.
Qed.

Lemma NoDup_generate_item_sets (t : transaction) (max_length : nat) :
  NoDup t → NoDup (generate_item_sets t max_length).
Proof.
  intros Ht. rewrite generate_item_sets_bind. apply NoDup_bind.
  - intros r1 r2 k _ _ H1%combinations_length H2%combinations_length. congruence.
  - intros r _. by apply NoDup_combinations.
  - apply NoDup_seq.
Qed.

Lemma length_bind {A B} (g : A → list B) (l : list A) :
  length (l ≫= g) = sum_list_with (λ a, length (g a)) l.
Proof. induction l as [|a l IH]; csimpl; [done|]. by rewrite length_app, IH. Qed.

Lemma generate_item_sets_length (t : transaction) :
  length (generate_item_sets t (length t)) = (2 ^ length t - 1)%nat.
Proof.
  rewrite generate_item_sets_bind, length_bind. apply combinations_total.
Qed.

Lemma generate_item_sets_positions (t : transaction) (max_length : nat) :
  generate_item_sets t max_length
  = select t <$> generate_item_sets (seq 0 (length t)) max_length.
Proof.
  rewrite (generate_item_sets_bind t), (generate_item_sets_bind (seq _ _)).
  induction (seq 1 max_length) as [|r rs IH]; csimpl; [done|].
  by rewrite fmap_app, <-IH, <-combinations_positions.
Qed.

Lemma generate_item_sets_valid_positions (n : nat) (p : list nat) :
  p ∈ generate_item_sets (seq 0 n) n →
  p ≠ [] ∧ StronglySorted lt p ∧ Forall (λ i, (i < n)%nat) p.
Proof.
  rewrite generate_item_sets_bind.
  intros (r & [Hs Hlen]%elem_of_combinations & Hr%elem_of_seq)%list_elem_of_bind.
  split_and!.
  - intros ->. simpl in *. lia.
  - eapply StronglySorted_sublist; [done|]. apply StronglySorted_lt_seq.
  - apply Forall_forall. intros i Hi.
    eapply sublist_subseteq, elem_of_seq in Hi; [|done]. lia.
Qed.

(** C3 (amended): for a transaction of length [n], called as
    [count_item_sets] calls it, [generate_item_sets] returns exactly
    [2^n - 1] itemsets, each non-empty; they are the selections of the
    transaction at position lists that are listed in strictly ascending
    short-lex order (size ascending, lexicographic by position within a
    size), so they are pairwise distinct as position selections; they are
    pairwise distinct as sequences when the transaction has no repeated
    item.  Every non-empty subsequence of the transaction is among them. *)
Theorem generate_item_sets_enumeration (t : transaction) :
  let n := length t in
  let item_sets := generate_item_sets t n in
  length item_sets = (2 ^ n - 1)%nat ∧
  (∀ k, k ∈ item_sets ↔ k ≠ [] ∧ k `sublist_of` t) ∧
  (NoDup t → NoDup item_sets) ∧
  ∃ ps : list (list nat),
    item_sets = select t <$> ps ∧
    StronglySorted shortlex_lt ps ∧
    Forall (λ p, p ≠ [] ∧ StronglySorted lt p ∧ Forall (λ i, (i < n)%nat) p) ps.
Proof.
  intros n item_sets. split_and!.
  - apply generate_item_sets_length.
  - intros k. apply elem_of_generate_item_sets.
  - apply NoDup_generate_item_sets.
  - exists (generate_item_sets (seq 0 n) n). split_and!.
    + apply generate_item_sets_positions.
    + rewrite generate_item_sets_bind. apply bind_shortlex.
      * intros r. apply combinations_lex, StronglySorted_lt_seq.
      * intros r p. apply combinations_length.
    + apply Forall_forall. intros p. apply generate_item_sets_valid_positions.
Qed.

Lemma generate_item_sets_enumeration_witness :
  NoDup (generate_item_sets [a_; b_; c_] 3).
Proof.
  destruct (generate_item_sets_enumeration [a_; b_; c_])
    as (_ & _ & Hdistinct & _).
  apply Hdistinct. apply (bool_decide_unpack _). vm_compute. exact I.
Defined.

(** C3 as stated fails: a transaction with a repeated item yields the same
    sequence twice. *)
Lemma generate_item_sets_repeated_item :
  generate_item_sets [a_; a_] 2 = [[a_]; [a_]; [a_; a_]] ∧
  ¬ NoDup (generate_item_sets [a_; a_] (length [a_; a_])).
Proof.
  split; [reflexivity|].
  intros [Hnotin _]%NoDup_cons. apply Hnotin. left.
Qed.

(** ** Facts about dictionaries *)

Section Dict.
Context {V : Type}.
Implicit Types (d : dict V) (k : itemset) (v : V).

Lemma dict_get_setitem d k v k' :
  dict_get (dict_setitem d k v) k'
  = if decide (k = k') then Some v else dict_get d k'.
Proof.
  induction d as [|[k0 v0] d IH]; simpl.
  - done.
  - destruct (decide (k0 = k)) as [->|]; simpl.
    + by destruct (decide (k = k')).
    + rewrite IH. destruct (decide (k0 = k')) as [->|]; [|done].
      by rewrite decide_False by done.
Qed.

Lemma dict_keys_cons d k v : dict_keys ((k, v) :: d) = k :: dict_keys d.
Proof. done. Qed.

Lemma dict_get_None_keys d k : dict_get d k = None ↔ k ∉ dict_keys d.
Proof.
  induction d as [|[k0 v0] d IH].
  - split; [intros _; apply not_elem_of_nil|done].
  - rewrite dict_keys_cons, not_elem_of_cons. cbn [dict_get].
    case_decide as Hk; [subst k0|rewrite IH].
    + split; [done|by intros [? _]].
    + split; [by split; [congruence|]|by intros [_ ?]].
Qed.

Lemma dict_keys_get d k : k ∈ dict_keys d → is_Some (dict_get d k).
Proof.
  intros Hk. destruct (dict_get d k) eqn:Hget; [eauto|].
  by apply dict_get_None_keys in Hget.
Qed.

Lemma elem_of_dict_keys d k v : (k, v) ∈ d → k ∈ dict_keys d.
Proof. intros Hin. apply list_elem_of_fmap. by exists (k, v). Qed.

Lemma dict_keys_setitem d k v :
  dict_keys (dict_setitem d k v)
  = if decide (k ∈ dict_keys d) then dict_keys d else dict_keys d ++ [k].
Proof.
  induction d as [|[k0 v0] d IH]; [done|].
  cbn [dict_setitem]. rewrite !dict_keys_cons.
  destruct (decide (k0 = k)) as [->|Hne].
  - rewrite decide_True by left. done.
  - rewrite dict_keys_cons, IH. destruct (decide (k ∈ dict_keys d)).
    + rewrite decide_True by by right. done.
    + rewrite decide_False; [done|]. by intros [->|]%elem_of_cons.
Qed.
End Dict.

(** ** Facts about [count_item_sets] *)

Lemma dict_get_increment (d : dict Z) (k k' : itemset) :
  dict_get (increment d k) k'
  = if decide (k = k') then Some (count_of d k + 1) else dict_get d k'.
Proof.
  unfold increment, defaultdict_getitem, count_of.
  destruct (dict_get d k) as [v|] eqn:Hget; simpl.
  - by rewrite dict_get_setitem.
  - rewrite !dict_get_setitem. by case_decide.
Qed.

Lemma dict_keys_increment (d : dict Z) (k : itemset) :
  dict_keys (increment d k)
  = if decide (k ∈ dict_keys d) then dict_keys d else dict_keys d ++ [k].
Proof.
  unfold increment, defaultdict_getitem.
  destruct (dict_get d k) as [v|] eqn:Hget.
  - by rewrite dict_keys_setitem.
  - rewrite !dict_keys_setitem. apply dict_get_None_keys in Hget.
    rewrite !(decide_False (P := k ∈ dict_keys d)) by done.
    rewrite decide_True; [done|]. apply elem_of_app; right. left.
Qed.

Lemma NoDup_keys_increment (d : dict Z) (k : itemset) :
  NoDup (dict_keys d) → NoDup (dict_keys (increment d k)).
Proof.
  intros Hd. rewrite dict_keys_increment. case_decide as Hk; [done|].
  apply NoDup_app. split_and!; [done| |apply NoDup_singleton].
  by intros k' ? ->%list_elem_of_singleton.
Qed.

Lemma NoDup_keys_fold_increment (ks : list itemset) (d : dict Z) :
  NoDup (dict_keys d) → NoDup (dict_keys (fold_left increment ks d)).
Proof.
  revert d. induction ks as [|k ks IH]; intros d Hd; simpl; [done|].
  by apply IH, NoDup_keys_increment.
Qed.

Lemma NoDup_keys_count_fold (ts : list transaction) (d : dict Z) :
  NoDup (dict_keys d) →
  NoDup (dict_keys
    (fold_left (λ counts (t : transaction),
       fold_left increment (generate_item_sets t (length t)) counts) ts d)).
Proof.
  revert d. induction ts as [|t ts IH]; intros d Hd; simpl; [done|].
  by apply IH, NoDup_keys_fold_increment.
Qed.

Lemma NoDup_keys_count_item_sets (ts : list transaction) :
  NoDup (dict_keys (count_item_sets ts)).
Proof. apply NoDup_keys_count_fold. constructor. Qed.

Lemma occurrences_cons (k k' : itemset) (ks : list itemset) :
  occurrences k (k' :: ks)
  = ((if decide (k' = k) then 1 else 0) + occurrences k ks)%nat.
Proof. unfold occurrences. rewrite filter_cons. by case_decide. Qed.

Lemma occurrences_zero (k : itemset) (ks : list itemset) :
  occurrences k ks = 0%nat ↔ k ∉ ks.
Proof.
  induction ks as [|k' ks IH].
  - split; [intros _; apply not_elem_of_nil|done].
  - rewrite occurrences_cons, not_elem_of_cons. case_decide; [subst|].
    + split; [lia|by intros []].
    + rewrite <-IH. split; [by split; [congruence|lia]|intros [_ ->]; lia].
Qed.

Lemma occurrences_NoDup (k : itemset) (ks : list itemset) :
  NoDup ks → occurrences k ks = if decide (k ∈ ks) then 1%nat else 0%nat.
Proof.
  induction 1 as [|k' ks Hk' _ IH]; [done|].
  rewrite occurrences_cons, IH. destruct (decide (k' = k)) as [->|Hne].
  - rewrite (decide_True (P := k ∈ k :: ks)) by left.
    by rewrite decide_False.
  - destruct (decide (k ∈ ks)).
    + rewrite decide_True by by right. done.
    + rewrite decide_False; [done|]. by intros [->|]%elem_of_cons.
Qed.

Lemma tally_Some (n : nat) (c : Z) : tally n = Some c → c = Z.of_nat n ∧ 0 < c.
Proof. unfold tally. case_decide; [done|]. intros [= <-]. lia. Qed.

Lemma default_tally (n : nat) : default 0 (tally n) = Z.of_nat n.
Proof. unfold tally. case_decide; simpl; lia. Qed.

Lemma fold_increment_tally (ks : list itemset) (d : dict Z) (k : itemset) (n : nat) :
  dict_get d k = tally n →
  dict_get (fold_left increment ks d) k = tally (n + occurrences k ks).
Proof.
  revert d n. induction ks as [|k' ks IH]; intros d n Hd; simpl.
  - by rewrite Nat.add_0_r.
  - rewrite occurrences_cons, Nat.add_assoc. apply IH.
    rewrite dict_get_increment. case_decide; [subst k'|].
    + unfold count_of. rewrite Hd, default_tally.
      unfold tally. rewrite decide_False by lia. f_equal. lia.
    + by rewrite Nat.add_0_r.
Qed.

Lemma count_fold_tally (ts : list transaction) (d : dict Z) (k : itemset) (n : nat) :
  dict_get d k = tally n →
  dict_get
    (fold_left (λ counts (t : transaction),
       fold_left increment (generate_item_sets t (length t)) counts) ts d) k
  = tally (n + sum_list_with
                 (λ t, occurrences k (generate_item_sets t (length t))) ts).
Proof.
  revert d n. induction ts as [|t ts IH]; intros d n Hd; simpl.
  - by rewrite Nat.add_0_r.
  - rewrite Nat.add_assoc. by apply IH, fold_increment_tally.
Qed.

(** In general an itemset is counted once per occurrence in the
    enumerations of the transactions. *)
Lemma count_item_sets_get (ts : list transaction) (k : itemset) :
  dict_get (count_item_sets ts) k
  = tally (sum_list_with
             (λ t, occurrences k (generate_item_sets t (length t))) ts).
Proof. by apply (count_fold_tally ts [] k 0). Qed.

Lemma sum_list_with_indicator {A} (P : A → Prop) `{!∀ a, Decision (P a)}
    (l : list A) :
  sum_list_with (λ a, if decide (P a) then 1%nat else 0%nat) l
  = length (filter P l).
Proof.
  induction l as [|a l IH]; [done|].
  rewrite filter_cons. simpl. rewrite IH. by case_decide.
Qed.

Lemma sum_list_with_ext_in {A} (f g : A → nat) (l : list A) :
  (∀ a, a ∈ l → f a = g a) → sum_list_with f l = sum_list_with g l.
Proof.
  induction l as [|a l IH]; intros Hfg; simpl; [done|].
  rewrite Hfg by left. rewrite IH; [done|]. intros ??. apply Hfg. by right.
Qed.

(** Without repeated items a transaction counts once for each itemset it
    contains. *)
Lemma count_item_sets_get_NoDup (ts : list transaction) (k : itemset) :
  Forall NoDup ts →
  dict_get (count_item_sets ts) k
  = tally (length (filter (λ t, contains t k) ts)).
Proof.
  intros Hts. rewrite count_item_sets_get, <-sum_list_with_indicator.
  f_equal. apply sum_list_with_ext_in. intros t Ht.
  rewrite occurrences_NoDup.
  - apply decide_ext, elem_of_generate_item_sets.
  - apply NoDup_generate_item_sets. by eapply Forall_forall in Hts.
Qed.

Lemma count_of_count_item_sets (ts : list transaction) (k : itemset) :
  count_of (count_item_sets ts) k
  = Z.of_nat (sum_list_with
                (λ t, occurrences k (generate_item_sets t (length t))) ts).
Proof. unfold count_of. by rewrite count_item_sets_get, default_tally. Qed.

Lemma count_of_count_item_sets_NoDup (ts : list transaction) (k : itemset) :
  Forall NoDup ts →
  count_of (count_item_sets ts) k
  = Z.of_nat (length (filter (λ t, contains t k) ts)).
Proof.
  intros Hts. unfold count_of.
  by rewrite count_item_sets_get_NoDup, default_tally.
Qed.

(** For canonical (strictly sorted) sequences, being a subsequence is
    being a subset. *)
Lemma sorted_subseteq_sublist {A} (R : relation A) `{!StrictOrder R}
    (k t : list A) :
  StronglySorted R k → StronglySorted R t → k ⊆ t → k `sublist_of` t.
Proof.
  intros Hk Ht. revert k Hk.
  induction Ht as [|b t Ht IH Hb]; intros k Hk Hsub.
  - destruct k as [|a k]; [done|]. by destruct (not_elem_of_nil a); apply Hsub; left.
  - destruct k as [|a k]; [apply sublist_nil_l|].
    apply StronglySorted_inv in Hk as [Hk Ha].
    assert (∀ x, x ∈ k → R a x) as Hak
      by (intros x Hx; by eapply Forall_forall in Ha).
    assert (∀ x, x ∈ t → R b x) as Hbt
      by (intros x Hx; by eapply Forall_forall in Hb).
    assert (a ∈ b :: t) as [->|Hat]%elem_of_cons by (apply Hsub; left).
    + apply sublist_skip, IH; [done|]. intros x Hx.
      assert (x ∈ b :: t) as [->|Hxt]%elem_of_cons by (apply Hsub; by right);
        [|done].
      by destruct (irreflexivity R b); apply Hak.
    + apply sublist_cons, IH; [by constructor|]. intros x Hx.
      assert (x ∈ b :: t) as [->|Hxt]%elem_of_cons by (by apply Hsub); [|done].
      destruct (irreflexivity R a).
      apply elem_of_cons in Hx as [->|Hx]; [by apply Hbt|].
      transitivity b; [by apply Hak|by apply Hbt].
Qed.

Lemma sorted_contains {A} (R : relation A) `{!StrictOrder R} (k t : list A) :
  StronglySorted R k → StronglySorted R t → k `sublist_of` t ↔ k ⊆ t.
Proof.
  intros Hk Ht. split; [apply sublist_subseteq|].
  by apply sorted_subseteq_sublist with R.
Qed.

Lemma StronglySorted_NoDup {A} (R : relation A) `{!StrictOrder R} (l : list A) :
  StronglySorted R l → NoDup l.
Proof.
  induction 1 as [|a l _ IH Ha]; constructor; [|done].
  intros Hin. eapply Forall_forall in Ha; [|done].
  by apply (irreflexivity R a).
Qed.

#[export] Instance str_lt_strict : StrictOrder str_lt.
Proof.
  split.
  - intros s Hs. exact (irreflexivity (lexico (A := list nat)) _ Hs).
  - intros s1 s2 s3 H12 H23.
    exact (transitivity (R := lexico (A := list nat)) H12 H23).
Qed.

(** Every stored count is positive. *)
Lemma count_item_sets_positive (ts : list transaction) (k : itemset) (c : Z) :
  dict_get (count_item_sets ts) k = Some c → 0 < c.
Proof. rewrite count_item_sets_get. by intros [_ ?]%tally_Some. Qed.

(** C2 (amended): the count of an itemset is positive whenever the
    enumerator emits it for at least one transaction; when no transaction
    has a repeated item, the count equals the number of transactions that
    contain the itemset as a non-empty subsequence, each transaction
    contributing at most one increment, and so it is at most the number of
    transactions; for canonical data (transactions and itemset strictly
    sorted by one order) this is the number of transactions that contain
    the itemset as a subset. *)
Theorem count_item_sets_presence (ts : list transaction) (k : itemset) :
  let count := count_of (count_item_sets ts) k in
  (Exists (λ t, k ∈ generate_item_sets t (length t)) ts → 0 < count) ∧
  (Forall NoDup ts →
     count = Z.of_nat (length (filter (λ t, contains t k) ts)) ∧
     count ≤ Z.of_nat (length ts)) ∧
  (∀ (R : relation item), StrictOrder R →
     Forall (StronglySorted R) ts → StronglySorted R k → k ≠ [] →
     count = Z.of_nat (length (filter (λ t, k ⊆ t) ts))).
Proof.
  intros count. split_and!.
  - intros (t & Ht & Hk)%Exists_exists. unfold count.
    rewrite count_of_count_item_sets.
    pose proof (sum_list_with_in t
      (λ t, occurrences k (generate_item_sets t (length t))) ts Ht) as Hle.
    simpl in Hle.
    destruct (decide (occurrences k (generate_item_sets t (length t)) = 0%nat))
      as [Hz%occurrences_zero|]; [done|lia].
  - intros Hts. unfold count. rewrite count_of_count_item_sets_NoDup by done.
    split; [done|]. pose proof (length_filter (λ t, contains t k) ts). lia.
  - intros R HR Hts Hk Hne. unfold count.
    rewrite count_of_count_item_sets_NoDup.
    + do 2 f_equal. induction Hts as [|t ts Ht _ IH]; [done|].
      rewrite !filter_cons, IH.
      apply decide_ext. unfold contains.
      rewrite (sorted_contains R k t) by done. tauto.
    + eapply Forall_impl; [done|]. intros t. by apply StronglySorted_NoDup.
Qed.

Lemma count_item_sets_presence_witness :
  0 < count_of (count_item_sets [[a_; b_]; [a_; c_]; [b_; c_]]) [a_] ∧
  (count_of (count_item_sets [[a_; b_]; [a_; c_]; [b_; c_]]) [a_] = 2 ∧
   count_of (count_item_sets [[a_; b_]; [a_; c_]; [b_; c_]]) [a_] ≤ 3) ∧
  count_of (count_item_sets [[a_; b_]; [a_; c_]; [b_; c_]]) [a_]
  = Z.of_nat (length (filter (λ t, [a_] ⊆ t) [[a_; b_]; [a_; c_]; [b_; c_]])).
Proof.
  destruct (count_item_sets_presence [[a_; b_]; [a_; c_]; [b_; c_]] [a_])
    as (Hpos & Hcount & Hsubset).
  split; [|split].
  - apply Hpos. apply Exists_cons_hd. apply (bool_decide_unpack _).
    vm_compute. exact I.
  - apply Hcount. apply (bool_decide_unpack _). vm_compute. exact I.
  - apply (Hsubset str_lt str_lt_strict); [|by repeat constructor|done].
    repeat constructor; cbv; lia.
Defined.

(** C2 as stated fails: a transaction with a repeated item increments the
    count of one itemset twice. *)
Lemma count_item_sets_repeated_item :
  count_of (count_item_sets [[a_; a_]]) [a_] = 2 ∧
  ¬ (count_of (count_item_sets [[a_; a_]]) [a_] ≤ Z.of_nat (length [[a_; a_]])).
Proof.
  assert (count_of (count_item_sets [[a_; a_]]) [a_] = 2) as Hcount
    by reflexivity.
  split; [done|]. rewrite Hcount. simpl. lia.
Qed.

(** *** Iteration order of the count mapping *)

Lemma count_item_sets_flat (ts : list transaction) (d : dict Z) :
  fold_left (λ counts (t : transaction),
     fold_left increment (generate_item_sets t (length t)) counts) ts d
  = fold_left increment (ts ≫= λ t, generate_item_sets t (length t)) d.
Proof.
  revert d. induction ts as [|t ts IH]; intros d; csimpl; [done|].
  by rewrite fold_left_app, IH.
Qed.

Lemma dict_keys_fold_increment (ks : list itemset) (d : dict Z) :
  dict_keys (fold_left increment ks d)
  = dict_keys d ++ filter (λ k, k ∉ dict_keys d) (first_occurrences ks).
Proof.
  revert d. induction ks as [|k ks IH]; intros d; simpl.
  - by rewrite app_nil_r.
  - rewrite IH, dict_keys_increment, filter_cons.
    destruct (decide (k ∈ dict_keys d)) as [Hk|Hk].
    + rewrite decide_False by (by intros ?). f_equal.
      rewrite list_filter_filter. apply list_filter_iff.
      intros k'. split; [|tauto]. intros Hk'. split; [done|]. by intros ->.
    + rewrite decide_True by done. rewrite <-app_assoc. simpl. do 2 f_equal.
      rewrite list_filter_filter. apply list_filter_iff.
      intros k'. rewrite not_elem_of_app, list_elem_of_singleton. tauto.
Qed.

Lemma filter_all {A} (P : A → Prop) `{!∀ a, Decision (P a)} (l : list A) :
  (∀ a, P a) → filter P l = l.
Proof.
  intros HP. induction l as [|a l IH]; [done|].
  by rewrite filter_cons_True, IH.
Qed.

(** The keys of the count mapping are the emitted itemsets in the order of
    their first emission. *)
Lemma dict_keys_count_item_sets (ts : list transaction) :
  dict_keys (count_item_sets ts)
  = first_occurrences (ts ≫= λ t, generate_item_sets t (length t)).
Proof.
  unfold count_item_sets. rewrite count_item_sets_flat, dict_keys_fold_increment.
  simpl. apply filter_all. intros k. apply not_elem_of_nil.
Qed.

(** ** Facts about the error monad and the loops *)

Lemma bind_Ok {A B} (m : result A) (k : A → result B) (b : B) :
  bind m k = Ok b → ∃ a, m = Ok a ∧ k a = Ok b.
Proof. destruct m; simpl; [eauto|done]. Qed.

Lemma bind_Raise {A B} (m : result A) (k : A → result B) (e : exn) :
  bind m k = Raise e → m = Raise e ∨ ∃ a, m = Ok a ∧ k a = Raise e.
Proof. destruct m; simpl; [eauto|intros [= ->]; eauto]. Qed.

Lemma dict_getitem_Ok {V} (d : dict V) (k : itemset) (v : V) :
  dict_getitem d k = Ok v → dict_get d k = Some v.
Proof. unfold dict_getitem. by destruct (dict_get d k); intros [= ->]. Qed.

Lemma dict_getitem_Raise {V} (d : dict V) (k : itemset) (e : exn) :
  dict_getitem d k = Raise e → e = KeyError k ∧ dict_get d k = None.
Proof. unfold dict_getitem. by destruct (dict_get d k); intros [= <-]. Qed.

Lemma count_of_Some (d : dict Z) (k : itemset) (c : Z) :
  dict_get d k = Some c → count_of d k = c.
Proof. unfold count_of. by intros ->. Qed.

Lemma for_each_Ok_append {A B} (xs : list A)
    (body : A → list B → result (list B)) (out : A → list B) (s s' : list B) :
  (∀ a s s', a ∈ xs → body a s = Ok s' → s' = s ++ out a) →
  for_each xs body s = Ok s' → s' = s ++ (xs ≫= out).
Proof.
  revert s. induction xs as [|a xs IH]; intros s Hbody; simpl.
  - intros [= <-]. by rewrite app_nil_r.
  - intros (s1 & H1 & Hrest)%bind_Ok.
    apply Hbody in H1 as ->; [|left].
    apply IH in Hrest as ->; [by rewrite app_assoc|].
    intros ?????. eapply Hbody; [by right|done].
Qed.

Lemma for_each_Raise {A S} (xs : list A) (body : A → S → result S) (s : S)
    (e : exn) :
  for_each xs body s = Raise e → ∃ a s0, a ∈ xs ∧ body a s0 = Raise e.
Proof.
  revert s. induction xs as [|a xs IH]; intros s; simpl; [done|].
  intros [Hhere|(s1 & _ & Hrest)]%bind_Raise.
  - exists a, s. split; [left|done].
  - apply IH in Hrest as (a' & s0 & ? & ?). exists a', s0. split; [by right|done].
Qed.

Lemma comprehension_Ok {A B} (f : A → result B) (g : A → B) (xs : list A)
    (bs : list B) :
  (∀ a b, a ∈ xs → f a = Ok b → b = g a) →
  comprehension f xs = Ok bs → bs = g <$> xs.
Proof.
  revert bs. induction xs as [|a xs IH]; intros bs Hf; simpl.
  - by intros [= <-].
  - intros (b & Hb & (bs' & Hbs & [= <-])%bind_Ok)%bind_Ok.
    apply Hf in Hb as ->; [|left]. f_equal. apply IH; [|done].
    intros ????. eapply Hf; [by right|done].
Qed.

Lemma comprehension_Raise {A B} (f : A → result B) (xs : list A) (e : exn) :
  comprehension f xs = Raise e → ∃ a, a ∈ xs ∧ f a = Raise e.
Proof.
  induction xs as [|a xs IH]; simpl; [done|].
  intros [Hhere|(b & _ & [Hrest|(bs & _ & [=])]%bind_Raise)]%bind_Raise.
  - exists a. split; [left|done].
  - apply IH in Hrest as (a' & ? & ?). exists a'. split; [by right|done].
Qed.

Lemma bind_fmap_filter {A B C} (P : B → Prop) `{!∀ b, Decision (P b)}
    (f : B → C) (h : A → list B) (l : list A) :
  l ≫= (λ a, f <$> filter P (h a)) = f <$> filter P (l ≫= h).
Proof.
  induction l as [|a l IH]; csimpl; [done|].
  by rewrite filter_app, fmap_app, IH.
Qed.

Lemma fmap_as_bind {A B} (g : A → B) (l : list A) :
  g <$> l = l ≫= λ a, [g a].
Proof. induction l as [|a l IH]; csimpl; [done|]. by rewrite IH. Qed.

(** ** Facts about [generate_rules] *)

Section RuleFacts.
Context {F : Type} {ops : PyFloat F}.
Implicit Types (frequent : dict Z) (total : Z) (min_conf : F).

Lemma int_truediv_Ok (a b : Z) (q : F) :
  int_truediv a b = Ok q → b ≠ 0 ∧ q = truediv a b.
Proof. unfold int_truediv. case_decide; [done|]. by intros [= <-]. Qed.

Lemma int_truediv_Raise (a b : Z) (e : exn) :
  int_truediv (F := F) a b = Raise e →
  e = ZeroDivisionError IntTrueDiv ∧ b = 0.
Proof. unfold int_truediv. case_decide; [|done]. by intros [= <-]. Qed.

Lemma float_truediv_Ok (a b q : F) :
  float_truediv a b = Ok q → fis_zero b = false ∧ q = fdiv a b.
Proof. unfold float_truediv. destruct (fis_zero b); [done|]. by intros [= <-]. Qed.

Lemma float_truediv_Raise (a b : F) (e : exn) :
  float_truediv a b = Raise e →
  e = ZeroDivisionError FloatDiv ∧ fis_zero b = true.
Proof. unfold float_truediv. destruct (fis_zero b); [|done]. by intros [= <-]. Qed.

(** The comprehension that feeds [math.prod]. *)
Lemma supports_Ok frequent total (antecedents : list itemset) (supports : list F) :
  comprehension (λ x,
      c <- dict_getitem frequent x ;; int_truediv c total) antecedents
  = Ok supports →
  supports = (λ c, truediv (count_of frequent c) total) <$> antecedents.
Proof.
  apply comprehension_Ok. intros x q _ (c & Hc & Hq)%bind_Ok.
  apply dict_getitem_Ok, count_of_Some in Hc as <-.
  by apply int_truediv_Ok in Hq as [_ ->].
Qed.

Lemma candidates_elem_of frequent (item_set x : itemset) :
  (item_set, x) ∈ candidates frequent ↔
  item_set ∈ dict_keys frequent ∧ x `sublist_of` item_set ∧
  (1 ≤ length x < length item_set)%nat.
Proof.
  unfold candidates, range. rewrite list_elem_of_bind. split.
  - intros (S & (i & Hx & Hi%elem_of_seq)%list_elem_of_bind & HS).
    apply list_elem_of_fmap in Hx as (x' & [= -> ->] & Hx).
    apply elem_of_combinations in Hx as [Hsub <-]. split_and!; [done..|lia|lia].
  - intros (HS & Hsub & Hlen). exists item_set. split; [|done].
    apply list_elem_of_bind. exists (length x). split.
    + apply list_elem_of_fmap. exists x. split; [done|].
      by apply elem_of_combinations.
    + apply elem_of_seq. lia.
Qed.

(** What a run of [generate_rules] that returns has appended. *)
Lemma generate_rules_Ok min_conf frequent total (rules : list (rule F)) :
  generate_rules min_conf frequent total = Ok rules →
  rules = rule_of frequent total
            <$> filter (meets_conf min_conf frequent) (candidates frequent).
Proof.
  unfold generate_rules, candidates. intros Hrun.
  rewrite <-bind_fmap_filter.
  apply for_each_Ok_append with (out := λ item_set,
    rule_of frequent total <$> filter (meets_conf min_conf frequent)
      (range 1 (length item_set) ≫= λ i,
         pair item_set <$> combinations item_set i)) in Hrun; [done|].
  clear rules Hrun. intros item_set rules rules' _ Hrun.
  rewrite <-bind_fmap_filter.
  apply for_each_Ok_append with (out := λ i,
    rule_of frequent total <$> filter (meets_conf min_conf frequent)
      (pair item_set <$> combinations item_set i)) in Hrun; [done|].
  clear rules rules' Hrun. intros i rules rules' _ Hrun.
  apply bind_Ok in Hrun as (supports & Hsupports%supports_Ok & Hrun).
  rewrite (fmap_as_bind (pair item_set)), <-bind_fmap_filter.
  apply for_each_Ok_append with (out := λ x,
    rule_of frequent total <$> filter (meets_conf min_conf frequent)
      [(item_set, x)]) in Hrun; [done|].
  clear rules rules' Hrun. intros x rules rules' Hx%combinations_length Hrun.
  apply bind_Ok in Hrun as (cs & Hcs%dict_getitem_Ok%count_of_Some & Hrun).
  apply bind_Ok in Hrun as (s & [_ ->]%int_truediv_Ok & Hrun).
  apply bind_Ok in Hrun as (lift & [_ ->]%float_truediv_Ok & Hrun).
  apply bind_Ok in Hrun as (cs' & Hcs'%dict_getitem_Ok%count_of_Some & Hrun).
  apply bind_Ok in Hrun as (cx & Hcx%dict_getitem_Ok%count_of_Some & Hrun).
  apply bind_Ok in Hrun as (conf & [_ ->]%int_truediv_Ok & Hrun).
  rewrite filter_cons, filter_nil.
  case_decide as Hconf; unfold meets_conf, confidence_of in Hconf;
    cbn [fst snd] in Hconf; rewrite Hcs', Hcx in Hconf.
  - rewrite Hconf in Hrun. injection Hrun as <-. f_equal. csimpl.
    unfold rule_of, confidence_of, lift_of, slice_denominator. cbn [fst snd].
    by subst.
  - apply not_true_is_false in Hconf. rewrite Hconf in Hrun.
    injection Hrun as <-. by rewrite app_nil_r.
Qed.
End RuleFacts.

(** ** Facts about [filter_item_sets] *)

Section FilterFacts.
Context {F : Type} {ops : PyFloat F}.
Implicit Types (d kept : dict Z) (total : Z) (min_support : F).

Lemma filter_item_sets_nonzero min_support d total :
  total ≠ 0 →
  filter_item_sets min_support d total
  = Ok (filter (meets_support min_support total) d).
Proof.
  intros Htotal. induction d as [|[k c] d IH]; [done|].
  cbn [filter_item_sets]. unfold int_truediv at 1.
  rewrite decide_False, IH by done. cbn [bind].
  rewrite filter_cons.
  case_decide as Hge; unfold meets_support in Hge; cbn [snd] in Hge.
  - by rewrite Hge.
  - apply not_true_is_false in Hge. by rewrite Hge.
Qed.

Lemma filter_item_sets_zero min_support (entry : itemset * Z) d :
  filter_item_sets min_support (entry :: d) 0
  = Raise (ZeroDivisionError IntTrueDiv).
Proof. by destruct entry. Qed.

Lemma filter_item_sets_Ok min_support d total kept :
  filter_item_sets min_support d total = Ok kept →
  kept = filter (meets_support min_support total) d ∧ (d = [] ∨ total ≠ 0).
Proof.
  destruct (decide (total = 0)) as [->|Htotal].
  - destruct d; [|by rewrite filter_item_sets_zero]. intros [= <-]. auto.
  - rewrite filter_item_sets_nonzero by done. intros [= <-]. auto.
Qed.

Lemma filter_item_sets_keys min_support d total kept :
  filter_item_sets min_support d total = Ok kept →
  dict_keys kept `sublist_of` dict_keys d.
Proof.
  intros [-> _]%filter_item_sets_Ok. unfold dict_keys.
  apply fmap_sublist, sublist_filter.
Qed.

Lemma filter_item_sets_get min_support d total kept (k : itemset) :
  NoDup (dict_keys d) →
  filter_item_sets min_support d total = Ok kept →
  dict_get kept k
  = c ← dict_get d k;
    if fge (truediv c total) min_support then Some c else None.
Proof.
  intros Hd [-> _]%filter_item_sets_Ok.
  induction d as [|[k0 c0] d IH]; [done|].
  rewrite dict_keys_cons in Hd. apply NoDup_cons in Hd as [Hk0 Hd].
  rewrite filter_cons. cbn [dict_get].
  case_decide as Hge; unfold meets_support in Hge; cbn [snd] in Hge;
    [|apply not_true_is_false in Hge];
    cbn [dict_get]; (destruct (decide (k0 = k)) as [->|Hne]; [|by apply IH]);
    cbn [mbind option_bind]; rewrite Hge; [done|].
  apply dict_get_None_keys. intros Hk. apply Hk0.
  eapply sublist_subseteq; [|done].
  apply fmap_sublist, sublist_filter.
Qed.
End FilterFacts.

(** The exact rationals satisfy the order laws. *)
#[export] Instance Q_PyFloatLaws : PyFloatLaws Q.
Proof.
  split; cbn [fge flt truediv fzero fone Q_PyFloat].
  - intros a b c Hab%Qle_bool_iff Hbc%Qle_bool_iff.
    apply Qle_bool_iff. by apply Qle_trans with b.
  - intros a b _. apply Qle_bool_iff, Qle_refl.
  - intros a b n Hn Hab. apply Qle_bool_iff. rewrite !Qred_correct.
    apply Qmult_le_compat_r; [by rewrite <-Zle_Qle|].
    apply Qinv_le_0_compat. change 0%Q with (inject_Z 0).
    rewrite <-Zle_Qle. lia.
  - intros a b Ha Hb. apply negb_true_iff, not_true_is_false.
    intros Hle%Qle_bool_iff. rewrite Qred_correct in Hle.
    apply Qle_not_lt in Hle. apply Hle. apply Qlt_shift_div_l.
    + change 0%Q with (inject_Z 0). by rewrite <-Zlt_Qlt.
    + rewrite Qmult_0_l. change 0%Q with (inject_Z 0). by rewrite <-Zlt_Qlt.
  - intros a b Ha Hab. apply Qle_bool_iff. rewrite Qred_correct.
    apply Qle_shift_div_r.
    + change 0%Q with (inject_Z 0). rewrite <-Zlt_Qlt. lia.
    + rewrite Qmult_1_l. by rewrite <-Zle_Qle.
Qed.

Lemma for_each_Ok_each {A S} (xs : list A) (body : A → S → result S) (s s' : S) :
  for_each xs body s = Ok s' →
  ∀ a, a ∈ xs → ∃ s0 s1, body a s0 = Ok s1.
Proof.
  revert s. induction xs as [|a xs IH]; intros s; simpl.
  - by intros _ a ?%elem_of_nil.
  - intros (s1 & H1 & Hrest)%bind_Ok a' [->|Ha']%elem_of_cons; eauto.
Qed.

Lemma comprehension_Ok_each {A B} (f : A → result B) (xs : list A) (bs : list B) :
  comprehension f xs = Ok bs → ∀ a, a ∈ xs → ∃ b, f a = Ok b.
Proof.
  revert bs. induction xs as [|a xs IH]; intros bs; simpl.
  - by intros _ a ?%elem_of_nil.
  - intros (b & Hb & (bs' & Hbs & _)%bind_Ok)%bind_Ok a' [->|Ha']%elem_of_cons;
      eauto.
Qed.

Section RuleRuns.
Context {F : Type} {ops : PyFloat F}.
Implicit Types (frequent : dict Z) (total : Z) (min_conf : F).

Lemma candidates_intro frequent (item_set x : itemset) (i : nat) :
  item_set ∈ dict_keys frequent →
  i ∈ range 1 (length item_set) →
  x ∈ combinations item_set i →
  (item_set, x) ∈ candidates frequent.
Proof.
  intros HS Hi Hx. unfold candidates. apply list_elem_of_bind.
  exists item_set. split; [|done]. apply list_elem_of_bind.
  exists i. split; [|done]. apply list_elem_of_fmap. eauto.
Qed.

(** A run that returns has found every candidate antecedent in the
    mapping, with a non-zero count, and has divided by a non-zero total and
    by non-zero slice denominators. *)
Lemma generate_rules_Ok_lookups min_conf frequent total (rules : list (rule F))
    (item_set x : itemset) :
  generate_rules min_conf frequent total = Ok rules →
  (item_set, x) ∈ candidates frequent →
  total ≠ 0 ∧
  fis_zero (slice_denominator frequent total item_set (length x)) = false ∧
  ∃ cx, dict_get frequent x = Some cx ∧ cx ≠ 0.
Proof.
  unfold generate_rules, candidates. intros Hrun.
  intros (S & (i & Hx & Hi)%list_elem_of_bind & HS)%list_elem_of_bind.
  apply list_elem_of_fmap in Hx as (x' & [= -> ->] & Hx).
  eapply for_each_Ok_each in Hrun as (rules0 & rules1 & Hrun); [|done].
  eapply for_each_Ok_each in Hrun as (rules2 & rules3 & Hrun); [|done].
  apply bind_Ok in Hrun as (supports & Hsup%supports_Ok & Hrun).
  eapply for_each_Ok_each in Hrun as (rules4 & rules5 & Hrun); [|done].
  apply bind_Ok in Hrun as (cs & _ & Hrun).
  apply bind_Ok in Hrun as (s & [Htotal _]%int_truediv_Ok & Hrun).
  apply bind_Ok in Hrun as (lift & [Hnz _]%float_truediv_Ok & Hrun).
  apply bind_Ok in Hrun as (cs' & _ & Hrun).
  apply bind_Ok in Hrun as (cx & Hcx%dict_getitem_Ok & Hrun).
  apply bind_Ok in Hrun as (conf & [Hcx0 _]%int_truediv_Ok & Hrun).
  split; [done|]. split; [|by eauto].
  apply combinations_length in Hx as ->.
  unfold slice_denominator. by rewrite <-Hsup.
Qed.

(** A run that raises has met a slice whose denominator is zero (the float
    division error), or a candidate antecedent that is missing from the
    mapping or has count 0, or a total of 0. *)
Lemma generate_rules_Raise min_conf frequent total (e : exn) :
  generate_rules min_conf frequent total = Raise e →
  ∃ item_set x, (item_set, x) ∈ candidates frequent ∧
    ((e = ZeroDivisionError FloatDiv ∧
      fis_zero (slice_denominator frequent total item_set (length x)) = true) ∨
     (e ≠ ZeroDivisionError FloatDiv ∧
      (total = 0 ∨ dict_get frequent x = None ∨ dict_get frequent x = Some 0))).
Proof.
  unfold generate_rules. intros Hrun.
  apply for_each_Raise in Hrun as (item_set & rules0 & HS & Hrun).
  apply for_each_Raise in Hrun as (i & rules1 & Hi & Hrun).
  apply bind_Raise in Hrun as [Hsup|(supports & Hsup%supports_Ok & Hrun)].
  - apply comprehension_Raise in Hsup as (x & Hx & Hsup).
    exists item_set, x. split; [by eapply candidates_intro|]. right.
    apply bind_Raise in Hsup
      as [[-> ?]%dict_getitem_Raise|(c & _ & [-> ?]%int_truediv_Raise)]; auto.
  - apply for_each_Raise in Hrun as (x & rules2 & Hx & Hrun).
    exists item_set, x. split; [by eapply candidates_intro|].
    apply bind_Raise in Hrun as [[_ Hnone]%dict_getitem_Raise|(cs & _ & Hrun)].
    { apply dict_get_None_keys in Hnone. done. }
    apply bind_Raise in Hrun as [[-> ?]%int_truediv_Raise|(s & _ & Hrun)];
      [by auto|].
    apply bind_Raise in Hrun as [[-> Hz]%float_truediv_Raise|(lift & _ & Hrun)].
    { left. split; [done|]. apply combinations_length in Hx as ->.
      unfold slice_denominator. by rewrite <-Hsup. }
    apply bind_Raise in Hrun as [[_ Hnone]%dict_getitem_Raise|(cs' & _ & Hrun)].
    { apply dict_get_None_keys in Hnone. done. }
    apply bind_Raise in Hrun as [[-> ?]%dict_getitem_Raise|(cx & Hcx & Hrun)];
      [by auto|].
    apply dict_getitem_Ok in Hcx.
    apply bind_Raise in Hrun as [[-> ->]%int_truediv_Raise|(conf & _ & Hrun)];
      [by auto|].
    by destruct (fge conf min_conf).
Qed.
End RuleRuns.

Lemma filter_sublist_impl {A} (P Q : A → Prop)
    `{!∀ a, Decision (P a)} `{!∀ a, Decision (Q a)} (l : list A) :
  (∀ a, a ∈ l → P a → Q a) → filter P l `sublist_of` filter Q l.
Proof.
  induction l as [|a l IH]; intros HPQ; [done|].
  rewrite !filter_cons.
  assert (filter P l `sublist_of` filter Q l) as Hl.
  { apply IH. intros ???. apply HPQ; [by right|done]. }
  destruct (decide (P a)) as [HP|].
  - rewrite decide_True by (apply HPQ; [left|done]). by apply sublist_skip.
  - destruct (decide (Q a)); [by apply sublist_cons|done].
Qed.

(** ** Thresholds and rules *)

Section ThresholdClaims.
Context {F : Type} {ops : PyFloat F} {laws : PyFloatLaws F}.
Implicit Types (d frequent : dict Z) (total : Z).

(** C7: for every mapping and total, [filter_item_sets] returns unless it
    has to divide by a total of 0, and what it returns are exactly the
    entries whose [count / total_transactions >= min_support], in their
    order and with their counts unchanged; an entry whose quotient equals
    the threshold is retained. *)
Theorem filter_item_sets_retains (min_support : F) d total :
  (d = [] ∨ total ≠ 0 → ∃ kept, filter_item_sets min_support d total = Ok kept) ∧
  ∀ kept, filter_item_sets min_support d total = Ok kept →
    kept = filter (meets_support min_support total) d ∧
    (∀ k c, (k, c) ∈ kept ↔
            (k, c) ∈ d ∧ fge (truediv c total) min_support = true) ∧
    (∀ k c, (k, c) ∈ d → min_support = truediv c total → (k, c) ∈ kept).
Proof.
  split.
  - intros [->|Htotal]; [by exists []|].
    eexists. by apply filter_item_sets_nonzero.
  - intros kept [-> Hdef]%filter_item_sets_Ok. split; [done|]. split.
    + intros k c. rewrite list_elem_of_filter. unfold meets_support.
      cbn [snd]. tauto.
    + intros k c Hin ->. apply list_elem_of_filter. split; [|done].
      unfold meets_support. apply truediv_fge_refl.
      destruct Hdef as [->|]; [|done]. by apply elem_of_nil in Hin.
Qed.

(** C8: for a fixed mapping and total, whenever [filter_item_sets]
    returns under a [min_support] it also returns under any smaller one,
    and what it retains under the larger value is part of what it retains
    under the smaller one; it does return for every non-zero total. *)
Theorem filter_item_sets_monotone (lower higher : F) d total :
  fge higher lower = true →
  (total ≠ 0 → ∃ kept_higher, filter_item_sets higher d total = Ok kept_higher) ∧
  ∀ kept_higher, filter_item_sets higher d total = Ok kept_higher →
    ∃ kept_lower,
      filter_item_sets lower d total = Ok kept_lower ∧
      kept_higher `sublist_of` kept_lower ∧
      dict_keys kept_higher ⊆ dict_keys kept_lower.
Proof.
  intros Hge. split.
  - intros Htotal. eexists. by apply filter_item_sets_nonzero.
  - intros kept_higher [-> Hdef]%filter_item_sets_Ok.
    exists (filter (meets_support lower total) d). split.
    { destruct Hdef as [->|Htotal]; [done|].
      by apply filter_item_sets_nonzero. }
    assert (filter (meets_support higher total) d
            `sublist_of` filter (meets_support lower total) d) as Hsub.
    { apply filter_sublist_impl. unfold meets_support. intros [k c] _ Hc.
      by eapply fge_trans. }
    split; [done|]. apply sublist_subseteq. by apply fmap_sublist.
Qed.
End ThresholdClaims.

Lemma filter_item_sets_retains_witness :
  filter_item_sets default_min_support [([a_], 2); ([b_], 1)] 4
  = Ok [([a_], 2)] ∧
  ([a_], 2) ∈ [([a_], 2)].
Proof.
  assert (filter_item_sets default_min_support [([a_], 2); ([b_], 1)] 4
          = Ok [([a_], 2)]) as Hrun by (vm_compute; reflexivity).
  split; [exact Hrun|].
  destruct (filter_item_sets_retains default_min_support
              [([a_], 2); ([b_], 1)] 4) as [_ Hkept].
  destruct (Hkept _ Hrun) as (_ & _ & Hties).
  apply Hties; [left|vm_compute; reflexivity].
Defined.

Lemma filter_item_sets_monotone_witness :
  ∃ kept_lower,
    filter_item_sets (1 # 4)%Q [([a_], 2); ([b_], 1)] 4 = Ok kept_lower ∧
    [([a_], 2)] `sublist_of` kept_lower ∧
    dict_keys [([a_], 2)] ⊆ dict_keys kept_lower.
Proof.
  destruct (filter_item_sets_monotone (1 # 4)%Q (1 # 2)%Q
              [([a_], 2); ([b_], 1)] 4) as [_ Hmono].
  - reflexivity.
  - apply Hmono. vm_compute. reflexivity.
Defined.

Section RunClaims.
Context {F : Type} {ops : PyFloat F}.
Implicit Types (d frequent : dict Z) (total : Z) (min_support min_conf : F).

(** C10: for the empty transaction list the count mapping is empty, the
    support filter evaluates no quotient although the total is 0, and
    [analyze_associations] returns the empty rule list; on any non-empty
    mapping a total of 0 does raise the division error. *)
Theorem analyze_associations_empty min_support min_conf :
  count_item_sets [] = [] ∧
  filter_item_sets min_support [] (Z.of_nat (length (@nil transaction))) = Ok [] ∧
  analyze_associations min_support min_conf [] = Ok [] ∧
  ∀ entry d, filter_item_sets min_support (entry :: d) 0
             = Raise (ZeroDivisionError IntTrueDiv).
Proof.
  split_and!; [done..|]. intros entry d. apply filter_item_sets_zero.
Qed.

(** C4: when [generate_rules] returns, its rules are, in order, one rule
    [(x, S \ x, count(S) / count(x))] for each candidate antecedent [x] of
    a frequent itemset [S] whose confidence [count(S) / count(x)] is at
    least [min_conf] (equality included), and no rule for any other
    candidate. *)
Theorem generate_rules_confidence min_conf frequent total (rules : list (rule F)) :
  generate_rules min_conf frequent total = Ok rules →
  (λ r, (rule_x r, rule_y r, rule_conf r)) <$> rules
  = (λ c : itemset * itemset,
       (c.2, list_to_set c.1 ∖ list_to_set c.2,
        truediv (count_of frequent c.1) (count_of frequent c.2)))
      <$> filter
            (λ c, fge (truediv (count_of frequent c.1) (count_of frequent c.2))
                      min_conf = true)
            (candidates frequent).
Proof.
  intros ->%generate_rules_Ok. by rewrite <-list_fmap_compose.
Qed.


(** C9: when [generate_rules] returns, its rules are the rules of the
    retained candidates, in the order of the nested enumeration: frequent
    itemsets in the iteration order of the mapping, for each of them the
    antecedent sizes 1, 2, ... in ascending order, for each size the
    candidates in the order [combinations] lists them; nothing is
    reordered. *)
Theorem generate_rules_order min_conf frequent total (rules : list (rule F)) :
  generate_rules min_conf frequent total = Ok rules →
  ∃ kept : list (itemset * itemset),
    rules = rule_of frequent total <$> kept ∧
    rule_x <$> rules = snd <$> kept ∧
    kept = filter (meets_conf min_conf frequent)
             (dict_keys frequent ≫= λ S,
                seq 1 (length S - 1) ≫= λ i,
                  pair S <$> combinations S i).
Proof.
  intros ->%generate_rules_Ok.
  exists (filter (meets_conf min_conf frequent) (candidates frequent)).
  split; [done|]. split; [|done]. by rewrite <-list_fmap_compose.
Qed.
End RunClaims.

Lemma generate_rules_confidence_witness :
  (λ r, (rule_x r, rule_y r, rule_conf r)) <$> sample_rules
  = (λ c : itemset * itemset,
       (c.2, list_to_set c.1 ∖ list_to_set c.2,
        truediv (count_of sample_frequent c.1) (count_of sample_frequent c.2)))
      <$> filter
            (λ c, fge (truediv (count_of sample_frequent c.1)
                               (count_of sample_frequent c.2))
                      default_min_conf = true)
            (candidates sample_frequent).
Proof.
  apply (generate_rules_confidence default_min_conf sample_frequent 3).
  vm_compute. reflexivity.
Defined.


Lemma generate_rules_order_witness :
  ∃ kept : list (itemset * itemset),
    sample_rules = rule_of sample_frequent 3 <$> kept ∧
    rule_x <$> sample_rules = snd <$> kept ∧
    kept = filter (meets_conf default_min_conf sample_frequent)
             (dict_keys sample_frequent ≫= λ S,
                seq 1 (length S - 1) ≫= λ i,
                  pair S <$> combinations S i).
Proof.
  apply (generate_rules_order default_min_conf sample_frequent 3).
  vm_compute. reflexivity.
Defined.

(** ** Facts about the pipeline *)

Section PipelineFacts.
Context {F : Type} {ops : PyFloat F}.
Implicit Types (frequent : dict Z) (ts : list transaction).

Lemma analyze_associations_Ok (min_support min_conf : F) ts
    (rules : list (rule F)) :
  analyze_associations min_support min_conf ts = Ok rules →
  ∃ frequent,
    filter_item_sets min_support (count_item_sets ts) (Z.of_nat (length ts))
    = Ok frequent ∧
    generate_rules min_conf frequent (Z.of_nat (length ts)) = Ok rules.
Proof. unfold analyze_associations. apply bind_Ok. Qed.

(** An entry of the filtered mapping is an entry of the count mapping
    that meets the threshold. *)
Lemma frequent_get (min_support : F) ts frequent (k : itemset) (c : Z) :
  filter_item_sets min_support (count_item_sets ts) (Z.of_nat (length ts))
  = Ok frequent →
  dict_get frequent k = Some c ↔
  dict_get (count_item_sets ts) k = Some c ∧
  fge (truediv c (Z.of_nat (length ts))) min_support = true.
Proof.
  intros Hfilter.
  rewrite (filter_item_sets_get _ _ _ _ k
             (NoDup_keys_count_item_sets ts) Hfilter).
  destruct (dict_get (count_item_sets ts) k) as [c'|]; simpl.
  - destruct (fge (truediv c' _) min_support) eqn:Hge.
    + split; [by intros [= <-]|by intros [[= <-] _]].
    + split; [done|]. intros [[= <-] Hge']. congruence.
  - split; [done|by intros [? _]].
Qed.

Lemma filter_item_sets_pipeline_Ok (min_support : F) ts :
  ∃ frequent,
    filter_item_sets min_support (count_item_sets ts) (Z.of_nat (length ts))
    = Ok frequent.
Proof.
  destruct ts as [|t ts]; [by exists []|].
  eexists. apply filter_item_sets_nonzero. simpl. lia.
Qed.

(** Without repeated items, a sub-combination of an itemset is counted
    at least as often as the itemset. *)
Lemma count_sublist_le ts (item_set x : itemset) :
  Forall NoDup ts → x ≠ [] → x `sublist_of` item_set →
  count_of (count_item_sets ts) item_set ≤ count_of (count_item_sets ts) x.
Proof.
  intros Hts Hne Hsub. rewrite !count_of_count_item_sets_NoDup by done.
  apply Nat2Z.inj_le, sublist_length, filter_sublist_impl.
  intros t _ [_ HS]. split; [done|]. by etrans.
Qed.

(** The filtered mapping iterates over the retained itemsets in the order
    in which the enumeration of the transactions first emits them. *)
Lemma frequent_keys_order (min_support : F) ts frequent :
  filter_item_sets min_support (count_item_sets ts) (Z.of_nat (length ts))
  = Ok frequent →
  dict_keys frequent
  `sublist_of` first_occurrences (ts ≫= λ t, generate_item_sets t (length t)).
Proof.
  intros Hfilter%filter_item_sets_keys. by rewrite <-dict_keys_count_item_sets.
Qed.
End PipelineFacts.

(** *** Concrete runs *)

Example repeated_item_counts :
  count_item_sets [[a_; b_; b_]]
  = [([a_], 1); ([b_], 2); ([a_; b_], 2); ([b_; b_], 1); ([a_; b_; b_], 1)].
Proof. reflexivity. Qed.

Example basket_supports :
  count_of (count_item_sets basket_transactions) [bread; diaper; milk] = 2 ∧
  count_of (count_item_sets basket_transactions) [bread] = 4 ∧
  filter_item_sets (3 # 5)%Q (count_item_sets basket_transactions) 5
  = Ok [([bread], 4); ([milk], 4); ([bread; milk], 3); ([beer], 3);
        ([diaper], 4); ([beer; diaper], 3); ([bread; diaper], 3);
        ([diaper; milk], 3)].
Proof. split_and!; vm_compute; reflexivity. Qed.

Example basket_rules :
  (λ r, (rule_x r, elements (rule_y r), rule_conf r, rule_lift r))
    <$> match analyze_associations (3 # 5)%Q (3 # 5)%Q basket_transactions with
        | Ok rules => rules
        | Raise _ => []
        end
  = [([bread], [milk], 3 # 4, 15 # 16); ([milk], [bread], 3 # 4, 15 # 16);
     ([beer], [diaper], 1, 5 # 4); ([diaper], [beer], 3 # 4, 5 # 4);
     ([bread], [diaper], 3 # 4, 15 # 16); ([diaper], [bread], 3 # 4, 15 # 16);
     ([diaper], [milk], 3 # 4, 15 # 16); ([milk], [diaper], 3 # 4, 15 # 16)]%Q.
Proof. vm_compute. reflexivity. Qed.

Section PipelineClaims.
Context {F : Type} {ops : PyFloat F} {laws : PyFloatLaws F}.
Implicit Types (frequent : dict Z) (ts : list transaction).


(** Without repeated items every candidate antecedent of a retained
    itemset is retained itself. *)
Lemma candidate_lookups (min_support : F) ts frequent (S x : itemset) :
  Forall NoDup ts →
  filter_item_sets min_support (count_item_sets ts) (Z.of_nat (length ts))
  = Ok frequent →
  (S, x) ∈ candidates frequent →
  0 < Z.of_nat (length ts) ∧
  ∃ cS c, dict_get frequent S = Some cS ∧ dict_get frequent x = Some c ∧
          1 ≤ cS ≤ c.
Proof.
  intros Hts Hfilter (HS & Hsub & Hlen)%candidates_elem_of.
  destruct (dict_keys_get _ _ HS) as [cS HcS]. pose proof HcS as HcS'.
  apply (frequent_get _ _ _ _ _ Hfilter) in HcS' as [HcS' Hge].
  pose proof (count_item_sets_positive _ _ _ HcS') as HposS.
  assert (x ≠ []) as Hne by (intros ->; simpl in Hlen; lia).
  pose proof (count_sublist_le ts S x Hts Hne Hsub) as Hle.
  rewrite (count_of_Some _ _ _ HcS') in Hle.
  assert (0 < Z.of_nat (length ts)) as Htotal.
  { destruct ts; [done|]. simpl. lia. }
  split; [done|]. exists cS, (count_of (count_item_sets ts) x).
  split; [done|]. split; [|lia].
  apply (frequent_get _ _ _ _ _ Hfilter). split.
  - unfold count_of in *.
    destruct (dict_get (count_item_sets ts) x); [done|simpl in *; lia].
  - eapply fge_trans; [|done]. apply truediv_mono; lia.
Qed.

(** C6 (amended): for every input whose transactions have no repeated
    item, the support filter returns, every size-[i] sub-combination [x]
    of a retained frequent itemset is itself a key of the filtered mapping
    with count at least 1, the total is not 0 when anything is retained,
    and so [analyze_associations] raises neither a [KeyError] nor a
    division error on a count or on the total: if it raises at all, then
    because the product that forms a slice denominator is [0.0]. *)
Theorem analyze_associations_lookups (min_support min_conf : F) ts :
  Forall NoDup ts →
  ∃ frequent,
    filter_item_sets min_support (count_item_sets ts) (Z.of_nat (length ts))
    = Ok frequent ∧
    (∀ S x, (S, x) ∈ candidates frequent →
            Z.of_nat (length ts) ≠ 0 ∧
            ∃ c, dict_get frequent x = Some c ∧ 1 ≤ c) ∧
    (∀ e, analyze_associations min_support min_conf ts = Raise e →
          e = ZeroDivisionError FloatDiv ∧
          ∃ S x, (S, x) ∈ candidates frequent ∧
            fis_zero (slice_denominator frequent (Z.of_nat (length ts))
                        S (length x)) = true).
Proof.
  intros Hts.
  destruct (filter_item_sets_pipeline_Ok min_support ts) as [frequent Hfilter].
  exists frequent. split; [done|]. split.
  - intros S x Hc.
    destruct (candidate_lookups _ _ _ _ _ Hts Hfilter Hc)
      as (Htotal & cS & c & _ & Hget & Hc1).
    split; [lia|]. exists c. split; [done|lia].
  - intros e. unfold analyze_associations. rewrite Hfilter. cbn [bind].
    intros (S & x & Hc & Herr)%generate_rules_Raise.
    destruct Herr as [[-> Hz]|[_ Herr]]; [by eauto|].
    destruct (candidate_lookups _ _ _ _ _ Hts Hfilter Hc)
      as (Htotal & cS & c & _ & Hget & Hc1).
    destruct Herr as [?|[?|?]]; [lia|congruence|].
    assert (c = 0) by congruence. lia.
Qed.
End PipelineClaims.



Lemma analyze_associations_lookups_witness :
  ∃ frequent,
    filter_item_sets default_min_support (count_item_sets sample_transactions)
      (Z.of_nat (length sample_transactions)) = Ok frequent ∧
    (∀ S x, (S, x) ∈ candidates frequent →
            Z.of_nat (length sample_transactions) ≠ 0 ∧
            ∃ c, dict_get frequent x = Some c ∧ 1 ≤ c) ∧
    (∀ e, analyze_associations default_min_support default_min_conf
            sample_transactions = Raise e →
          e = ZeroDivisionError FloatDiv ∧
          ∃ S x, (S, x) ∈ candidates frequent ∧
            fis_zero (F := Q)
              (slice_denominator frequent
                 (Z.of_nat (length sample_transactions)) S (length x))
            = true).
Proof.
  apply (analyze_associations_lookups default_min_support default_min_conf
           sample_transactions).
  apply (bool_decide_unpack _). vm_compute. exact I.
Defined.

(** C6 as stated fails: every transaction below is non-empty and sorted,
    [("a", "b")] is retained with support 2/4, its sub-combination [("a",)]
    has support 1/4 and is not, and the lookup raises [KeyError], in exact
    arithmetic and in binary64. *)
Lemma analyze_associations_missing_antecedent :
  Forall (λ t, t ≠ []) repeated_transactions ∧
  (∃ frequent,
     filter_item_sets default_min_support (count_item_sets repeated_transactions)
       (Z.of_nat (length repeated_transactions)) = Ok frequent ∧
     ([a_; b_], [a_]) ∈ candidates frequent ∧
     dict_get frequent [a_] = None) ∧
  analyze_associations default_min_support default_min_conf repeated_transactions
  = Raise (KeyError [a_]) ∧
  analyze_associations (F := float) 0.5%float 0.75%float repeated_transactions
  = Raise (KeyError [a_]).
Proof.
  split; [by repeat constructor|]. split; [|by split; vm_compute].
  eexists. split; [by vm_compute|]. split; [|by vm_compute].
  apply candidates_elem_of. split_and!.
  - apply (bool_decide_unpack _). by vm_compute.
  - apply sublist_skip, sublist_nil_l.
  - simpl. lia.
  - simpl. lia.
Qed.


(** ** Exact arithmetic *)

Lemma Q_fold_fmul_pos (l : list Q) (acc : Q) :
  (0 < acc)%Q → Forall (λ q, (0 < q)%Q) l → (0 < fold_left fmul l acc)%Q.
Proof.
  revert acc. induction l as [|q l IH]; intros acc Hacc Hl; [done|].
  apply Forall_cons in Hl as [Hq Hl]. simpl. apply IH; [|done].
  rewrite Qred_correct. by apply Qmult_lt_0_compat.
Qed.

Lemma Q_truediv_pos (a b : Z) : 0 < a → 0 < b → (0 < truediv a b)%Q.
Proof.
  intros Ha Hb. pose proof (truediv_pos (F := Q) a b Ha Hb) as Hpos.
  apply negb_true_iff in Hpos. apply Qnot_le_lt. intros Hle%Qle_bool_iff.
  cbn [fzero Q_PyFloat] in Hpos. congruence.
Qed.

(** In exact arithmetic no slice denominator vanishes, so for transactions
    without repeated items [analyze_associations] always returns. *)
Lemma analyze_associations_exact_returns (min_support min_conf : Q)
    (ts : list transaction) :
  Forall NoDup ts →
  ∃ rules, analyze_associations min_support min_conf ts = Ok rules.
Proof.
  intros Hts.
  destruct (analyze_associations min_support min_conf ts) as [rules|e] eqn:Hrun;
    [by eauto|].
  destruct (filter_item_sets_pipeline_Ok min_support ts) as [frequent Hfilter].
  unfold analyze_associations in Hrun. rewrite Hfilter in Hrun. cbn [bind] in Hrun.
  apply generate_rules_Raise in Hrun as (S & x & Hc & Herr).
  destruct (candidate_lookups _ _ _ _ _ Hts Hfilter Hc)
    as (Htotal & cS & c & _ & Hget & Hc1).
  destruct Herr as [[_ Hz]|[_ [?|[?|?]]]]; [|lia|congruence|].
  - exfalso. apply Qeq_bool_iff in Hz.
    assert (0 < slice_denominator frequent (Z.of_nat (length ts)) S (length x))%Q
      as Hpos; [|by rewrite Hz in Hpos].
    apply Q_fold_fmul_pos; [done|]. apply Forall_fmap, Forall_forall.
    intros x' [Hsub' Hlen']%elem_of_combinations.
    apply candidates_elem_of in Hc as (HS & _ & Hlen).
    assert ((S, x') ∈ candidates frequent) as Hc'.
    { apply candidates_elem_of. split_and!; [done|done|lia|lia]. }
    destruct (candidate_lookups _ _ _ _ _ Hts Hfilter Hc')
      as (_ & cS' & c' & _ & Hget' & Hc1').
    simpl. rewrite (count_of_Some _ _ _ Hget'). apply Q_truediv_pos; lia.
  - assert (c = 0) by congruence. lia.
Qed.

(** ** Binary64 arithmetic *)

(** In binary64 the product of the 70 supports [2^-16] of the size-4
    sub-combinations of the eight-item basket underflows to [0.0], so the
    run on these baskets, none empty and none with a repeated item, does
    not return: the division that computes the lift raises. *)
Example binary64_underflow :
  Forall (λ t, t ≠ [] ∧ NoDup t) wide_transactions ∧
  ∃ frequent S x,
    filter_item_sets (F := float) 0%float (count_item_sets wide_transactions)
      (Z.of_nat (length wide_transactions)) = Ok frequent ∧
    (S, x) ∈ candidates frequent ∧
    fis_zero (F := float)
      (slice_denominator frequent (Z.of_nat (length wide_transactions))
         S (length x)) = true ∧
    ∀ rules,
      analyze_associations (F := float) 0%float 0.75%float wide_transactions
      ≠ Ok rules.
Proof.
  split.
  { apply Forall_app. split.
    - apply Forall_replicate. split; [done|]. apply NoDup_singleton.
    - apply Forall_singleton. split; [done|].
      apply (bool_decide_unpack _). vm_compute. exact I. }
  set (S := (λ n, String (Ascii.ascii_of_nat (97 + n)) EmptyString) <$> seq 0 8).
  exists (count_item_sets wide_transactions), S, (take 4 S).
  assert (filter_item_sets (F := float) 0%float
            (count_item_sets wide_transactions)
            (Z.of_nat (length wide_transactions))
          = Ok (count_item_sets wide_transactions)) as Hfilter
    by (vm_compute; reflexivity).
  assert ((S, take 4 S) ∈ candidates (count_item_sets wide_transactions)) as Hc.
  { apply candidates_elem_of. split_and!.
    - apply (bool_decide_unpack _). vm_compute. exact I.
    - apply sublist_take.
    - simpl. lia.
    - simpl. lia. }
  assert (fis_zero (F := float)
            (slice_denominator (count_item_sets wide_transactions)
               (Z.of_nat (length wide_transactions)) S (length (take 4 S)))
          = true) as Hz by (vm_compute; reflexivity).
  split_and!; [done..|].
  intros rules (frequent' & Hfilter' & Hrun)%analyze_associations_Ok.
  assert (frequent' = count_item_sets wide_transactions) as -> by congruence.
  destruct (generate_rules_Ok_lookups _ _ _ _ _ _ Hrun Hc) as (_ & Hnz & _).
  congruence.
Qed.


(** * The rest of the script *)

(** ** The order of [str] and [list.sort] *)

Lemma str_codes_inj (s1 s2 : item) :
  Ascii.nat_of_ascii <$> String.list_ascii_of_string s1
  = Ascii.nat_of_ascii <$> String.list_ascii_of_string s2 →
  s1 = s2.
Proof.
  intros Heq. rewrite <-(String.string_of_list_ascii_of_string s1),
    <-(String.string_of_list_ascii_of_string s2). f_equal.
  revert Heq. generalize (String.list_ascii_of_string s2).
  induction (String.list_ascii_of_string s1) as [|c1 l1 IH];
    intros [|c2 l2]; csimpl; try done.
  intros [= Hc Hl]. f_equal; [|by apply IH].
  by rewrite <-(Ascii.ascii_nat_embedding c1), <-(Ascii.ascii_nat_embedding c2), Hc.
Qed.

Lemma str_lt_trichotomy (s1 s2 : item) : str_lt s1 s2 ∨ s1 = s2 ∨ str_lt s2 s1.
Proof.
  unfold str_lt.
  destruct (trichotomyT (lexico (A := list nat))
              (Ascii.nat_of_ascii <$> String.list_ascii_of_string s1)
              (Ascii.nat_of_ascii <$> String.list_ascii_of_string s2))
    as [[?|?%str_codes_inj]|?]; auto.
Qed.

Lemma str_lt_asym (s1 s2 : item) : str_lt s1 s2 → ¬ str_lt s2 s1.
Proof.
  intros H12 H21. apply (irreflexivity str_lt s1). by transitivity s2.
Qed.

#[export] Instance str_le_total : Total str_le.
Proof.
  intros s1 s2. unfold str_le.
  destruct (decide (str_lt s2 s1)) as [Hlt|]; [|by left].
  right. by apply str_lt_asym.
Qed.

#[export] Instance str_le_trans : Transitive str_le.
Proof.
  intros s1 s2 s3 H12 H23 H31. unfold str_le in *.
  destruct (str_lt_trichotomy s1 s2) as [Hlt|[->|?]]; [|done..].
  destruct (str_lt_trichotomy s2 s3) as [Hlt'|[->|?]]; [|done..].
  apply (irreflexivity str_lt s1).
  transitivity s2; [done|]. by transitivity s3.
Qed.

#[export] Instance str_le_antisym : AntiSymm (=) str_le.
Proof.
  intros s1 s2 H12 H21. unfold str_le in *.
  by destruct (str_lt_trichotomy s1 s2) as [?|[?|?]].
Qed.

Lemma list_sort_Sorted (cell : list item) : Sorted str_le (list_sort cell).
Proof. apply (Sorted_merge_sort str_le). Qed.

Lemma list_sort_Permutation (cell : list item) : list_sort cell ≡ₚ cell.
Proof. apply merge_sort_Permutation. Qed.

(** The ascending rearrangement of a list of [str] is unique, so every
    sorting procedure computes [list_sort]. *)
Lemma list_sort_unique (cell sorted : list item) :
  Sorted str_le sorted → sorted ≡ₚ cell → sorted = list_sort cell.
Proof.
  intros Hsorted Hperm. apply (Sorted_unique str_le); [done| |].
  - apply list_sort_Sorted.
  - by rewrite list_sort_Permutation.
Qed.

(** ** [str.splitlines] and [str.split] *)

Lemma splitlines_nil (s : string) : splitlines s = [] ↔ s = EmptyString.
Proof.
  split; [|by intros ->]. destruct s as [|c s']; [done|]. simpl.
  destruct (is_line_boundary c); [done|]. by destruct (splitlines s').
Qed.

(** No line keeps a line boundary. *)
Lemma splitlines_no_boundary (s line : string) (c : Ascii.ascii) :
  line ∈ splitlines s → c ∈ String.list_ascii_of_string line →
  is_line_boundary c = false.
Proof.
  remember (String.length s) as n eqn:Hn. revert s Hn line.
  induction n as [n IH] using lt_wf_ind. intros [|c0 s'] Hn line; simpl.
  { by intros ?%elem_of_nil. }
  simpl in Hn. destruct (is_line_boundary c0) eqn:Hc0.
  - intros [->|Hline]%elem_of_cons; [by intros ?%elem_of_nil|].
    destruct s' as [|c' s'']; [by apply elem_of_nil in Hline|].
    simpl in Hn. destruct (bool_decide _) in Hline.
    + eapply (IH (String.length s'')); [lia|done|done].
    + eapply (IH (String.length (String c' s''))); [simpl; lia|done|done].
  - assert (∀ line', line' ∈ splitlines s' →
              c ∈ String.list_ascii_of_string line' →
              is_line_boundary c = false) as IH'.
    { intros line'. eapply (IH (String.length s')); [lia|done]. }
    destruct (splitlines s') as [|line0 lines].
    + intros ->%list_elem_of_singleton. simpl.
      intros [->|?%elem_of_nil]%elem_of_cons; done.
    + intros [->|Hline]%elem_of_cons; simpl.
      * intros [->|Hc]%elem_of_cons; [done|]. eapply IH'; [left|done].
      * intros Hc. eapply IH'; [by right|done].
Qed.

Lemma split_not_nil (sep : Ascii.ascii) (s : string) : split sep s ≠ [].
Proof.
  destruct s as [|c s']; simpl; [done|].
  case_decide; [done|]. by destruct (split sep s').
Qed.

(** No cell keeps a separator, and every character of a cell is one of the
    line. *)
Lemma split_cell_chars (sep : Ascii.ascii) (s cell : string) (c : Ascii.ascii) :
  cell ∈ split sep s → c ∈ String.list_ascii_of_string cell →
  c ≠ sep ∧ c ∈ String.list_ascii_of_string s.
Proof.
  revert cell. induction s as [|c0 s' IH]; intros cell; simpl.
  { intros ->%list_elem_of_singleton. by intros ?%elem_of_nil. }
  assert (∀ cell', cell' ∈ split sep s' →
            c ∈ String.list_ascii_of_string cell' →
            c ≠ sep ∧ c ∈ c0 :: String.list_ascii_of_string s') as IH'.
  { intros cell' Hcell Hc. destruct (IH _ Hcell Hc). split; [done|by right]. }
  case_decide as Hsep.
  - intros [->|Hcell]%elem_of_cons; [by intros ?%elem_of_nil|].
    intros Hc. by eapply IH'.
  - destruct (split sep s') as [|cell0 cells].
    + intros ->%list_elem_of_singleton. simpl.
      intros [->|?%elem_of_nil]%elem_of_cons; [|done]. split; [done|left].
    + intros [->|Hcell]%elem_of_cons; simpl.
      * intros [->|Hc]%elem_of_cons; [split; [done|left]|].
        eapply IH'; [left|done].
      * intros Hc. eapply IH'; [by right|done].
Qed.

(** Splitting loses nothing: the cells joined by the separator are the
    line. *)
Lemma split_concat (sep : Ascii.ascii) (s : string) :
  String.concat (String sep EmptyString) (split sep s) = s.
Proof.
  induction s as [|c s' IH]; [done|]. simpl. case_decide as Hsep.
  - subst c. pose proof (split_not_nil sep s') as Hne.
    destruct (split sep s') as [|cell cells] eqn:Hsplit; [done|].
    simpl in *. by rewrite IH.
  - destruct (split sep s') as [|cell cells] eqn:Hsplit.
    + by destruct (split_not_nil sep s').
    + simpl in *. destruct cells; simpl in *; by rewrite <-IH.
Qed.

Lemma list_remove_head {A} `{EqDecision A} (x : A) (l : list A) :
  list_remove x (x :: l) = Some l.
Proof. simpl. by rewrite decide_True. Qed.

(** What [split_cells] computes: the header is dropped, every other line
    is split and sorted. *)
Lemma split_cells_unfold (csv : string) :
  split_cells csv
  = match splitlines csv with
    | [] => inl IndexError
    | _ :: lines => inr ((λ line, list_sort (split comma line)) <$> lines)
    end.
Proof.
  unfold split_cells. destruct (splitlines csv) as [|header lines]; [done|].
  rewrite fmap_cons, list_remove_head. by rewrite <-list_fmap_compose.
Qed.

(** ** [split_cells] *)

(** X1: [split_cells] raises [IndexError] exactly on the empty text and
    never a [ValueError]; on a text of one line (the header) it returns no
    transaction, and the analysis of that returns no rule. *)
Theorem split_cells_small_files {F : Type} {ops : PyFloat F}
    (min_support min_conf : F) (csv : string) :
  (split_cells csv = inl IndexError ↔ csv = EmptyString) ∧
  split_cells csv ≠ inl ValueError ∧
  (length (splitlines csv) = 1%nat →
   split_cells csv = inr [] ∧
   analyze_associations min_support min_conf [] = Ok []).
Proof.
  rewrite split_cells_unfold. split_and!.
  - rewrite <-splitlines_nil. by destruct (splitlines csv).
  - by destruct (splitlines csv).
  - destruct (splitlines csv) as [|header [|line lines]]; done.
Qed.

Lemma split_cells_small_files_witness :
  split_cells (String (Ascii.ascii_of_nat 104) EmptyString) = inr [] ∧
  analyze_associations default_min_support default_min_conf [] = Ok [].
Proof.
  apply (split_cells_small_files default_min_support default_min_conf).
  reflexivity.
Defined.

(** X2: when [split_cells] returns, there is one transaction for each line
    after the first, in the order of the lines; each is the ascending
    rearrangement of the comma-separated cells of its line, and none is
    empty. *)
Theorem split_cells_rows (csv : string) (cells : list (list item)) :
  split_cells csv = inr cells →
  ∃ header lines,
    splitlines csv = header :: lines ∧
    length cells = (length (splitlines csv) - 1)%nat ∧
    Forall2 (λ line row,
        Sorted str_le row ∧ row ≡ₚ split comma line ∧ row ≠ [])
      lines cells.
Proof.
  rewrite split_cells_unfold.
  destruct (splitlines csv) as [|header lines]; [done|]. intros [= <-].
  exists header, lines. split; [done|]. split.
  - rewrite length_fmap. simpl. lia.
  - apply Forall2_fmap_r, Forall_Forall2_diag, Forall_forall. intros line _.
    split_and!; [apply list_sort_Sorted|apply list_sort_Permutation|].
    intros Hnil. apply (split_not_nil comma line).
    apply Permutation_nil_r. by rewrite <-Hnil, list_sort_Permutation.
Qed.

Lemma split_cells_rows_witness :
  ∃ header lines,
    splitlines sample_csv = header :: lines ∧
    length [[a_; b_]; [a_; b_; c_]; [a_; c_]]
    = (length (splitlines sample_csv) - 1)%nat ∧
    Forall2 (λ line row,
        Sorted str_le row ∧ row ≡ₚ split comma line ∧ row ≠ [])
      lines [[a_; b_]; [a_; b_; c_]; [a_; c_]].
Proof.
  apply (split_cells_rows sample_csv). vm_compute. reflexivity.
Defined.

(** X3: two rows become the same transaction exactly when they hold the
    same cells with the same multiplicities, in whatever order; sorting a
    sorted row changes nothing. *)
Theorem list_sort_canonical (row1 row2 : list item) :
  (list_sort row1 = list_sort row2 ↔ row1 ≡ₚ row2) ∧
  list_sort (list_sort row1) = list_sort row1.
Proof.
  split; [split|].
  - intros Heq. by rewrite <-(list_sort_Permutation row1), Heq,
      list_sort_Permutation.
  - intros Hperm. apply list_sort_unique; [apply list_sort_Sorted|].
    by rewrite list_sort_Permutation.
  - symmetry. apply list_sort_unique; [apply list_sort_Sorted|done].
Qed.

(** X4: no item that [split_cells] returns contains a comma or a line
    boundary. *)
Theorem split_cells_items (csv : string) (cells : list (list item))
    (row : list item) (item : item) (c : Ascii.ascii) :
  split_cells csv = inr cells →
  row ∈ cells → item ∈ row → c ∈ String.list_ascii_of_string item →
  c ≠ comma ∧ is_line_boundary c = false.
Proof.
  rewrite split_cells_unfold.
  destruct (splitlines csv) as [|header lines] eqn:Hlines; [done|].
  intros [= <-] (line & -> & Hline)%list_elem_of_fmap Hitem Hc.
  rewrite list_sort_Permutation in Hitem.
  destruct (split_cell_chars _ _ _ _ Hitem Hc) as [Hcomma Hin].
  split; [done|]. apply (splitlines_no_boundary csv line); [|done].
  rewrite Hlines. by right.
Qed.

Lemma split_cells_items_witness :
  Ascii.ascii_of_nat 97 ≠ comma ∧
  is_line_boundary (Ascii.ascii_of_nat 97) = false.
Proof.
  apply (split_cells_items sample_csv [[a_; b_]; [a_; b_; c_]; [a_; c_]]
           [a_; b_] a_).
  - vm_compute. reflexivity.
  - left.
  - left.
  - left.
Defined.

(** ** The start-up code *)

(** X5: with fewer than two command-line arguments the defaults stay, so
    a single argument is ignored; with exactly two arguments the block
    always raises, [ValueError] if the first number does not parse and
    [IndexError] otherwise; with three or more it takes the path and the
    two thresholds from the first three and ignores the rest, raising
    [ValueError] if a number does not parse. *)
Theorem read_arguments_cases {F : Type} (float : string → option F)
    (defaults : arguments F) (argv : list string) :
  ((length argv ≤ 2)%nat → read_arguments float defaults argv = inr defaults) ∧
  (∀ prog path a2, argv = [prog; path; a2] →
     read_arguments float defaults argv
     = inl match float a2 with
           | Some _ => IndexError
           | None => ValueError
           end) ∧
  (∀ prog path a2 a3 rest, argv = prog :: path :: a2 :: a3 :: rest →
     read_arguments float defaults argv
     = match float a2, float a3 with
       | Some min_support, Some min_conf =>
           inr (Arguments path min_support min_conf)
       | _, _ => inl ValueError
       end).
Proof.
  unfold read_arguments. split_and!.
  - intros Hlen. by rewrite decide_False by lia.
  - intros prog path a2 ->. simpl. by destruct (float a2).
  - intros prog path a2 a3 rest ->. rewrite decide_True by (simpl; lia).
    simpl. destruct (float a2); [|done]. by destruct (float a3).
Qed.

Lemma read_arguments_cases_witness :
  read_arguments sample_float
    (Arguments "data/warenkorb.csv"%string default_min_support default_min_conf)
    ["01_assoziation.py"; "baskets.csv"]%string
  = inr (Arguments "data/warenkorb.csv"%string
           default_min_support default_min_conf) ∧
  read_arguments sample_float
    (Arguments "data/warenkorb.csv"%string default_min_support default_min_conf)
    ["01_assoziation.py"; "baskets.csv"; "0.25"]%string
  = inl IndexError ∧
  read_arguments sample_float
    (Arguments "data/warenkorb.csv"%string default_min_support default_min_conf)
    ["01_assoziation.py"; "baskets.csv"; "0.25"; "0.5"]%string
  = inr (Arguments "baskets.csv"%string (1 # 4)%Q (1 # 2)%Q).
Proof.
  split; [|split].
  - apply read_arguments_cases. simpl. lia.
  - exact (proj1 (proj2 (read_arguments_cases sample_float _ _))
             _ _ _ eq_refl).
  - exact (proj2 (proj2 (read_arguments_cases sample_float _ _))
             _ _ _ _ _ eq_refl).
Defined.

(** ** More about the enumeration and the counts *)

Lemma bind_all_nil {A B} (g : A → list B) (l : list A) :
  (∀ a, a ∈ l → g a = []) → l ≫= g = [].
Proof.
  induction l as [|a l IH]; intros Hg; csimpl; [done|].
  rewrite Hg by left. apply IH. intros ??. apply Hg. by right.
Qed.

(** X6: for any [max_length], [generate_item_sets] returns the non-empty
    subsequences of the transaction of at most [max_length] items, and a
    [max_length] beyond the length of the transaction adds nothing. *)
Theorem generate_item_sets_bounded (t : transaction) (max_length : nat) :
  (∀ k, k ∈ generate_item_sets t max_length ↔
        k ≠ [] ∧ k `sublist_of` t ∧ (length k ≤ max_length)%nat) ∧
  ((length t ≤ max_length)%nat →
   generate_item_sets t max_length = generate_item_sets t (length t)).
Proof.
  rewrite !generate_item_sets_bind. split.
  - intros k. rewrite list_elem_of_bind. split.
    + intros (r & [Hs Hlen]%elem_of_combinations & Hr%elem_of_seq).
      split_and!; [|done|lia]. intros ->. simpl in *. lia.
    + intros (Hne & Hs & Hlen). exists (length k).
      split; [by apply elem_of_combinations|]. apply elem_of_seq.
      destruct k; [done|]. simpl in *. lia.
  - intros Hlen.
    replace max_length with (length t + (max_length - length t))%nat at 1 by lia.
    rewrite seq_app, bind_app, (bind_all_nil _ (seq (1 + length t) _)),
      app_nil_r; [done|].
    intros r Hr%elem_of_seq. apply combinations_too_long. lia.
Qed.

Lemma generate_item_sets_bounded_witness :
  generate_item_sets [a_; b_] 5 = generate_item_sets [a_; b_] (length [a_; b_]).
Proof. apply generate_item_sets_bounded. simpl. lia. Defined.

Lemma elem_of_first_occurrences (k : itemset) (ks : list itemset) :
  k ∈ first_occurrences ks ↔ k ∈ ks.
Proof.
  induction ks as [|k0 ks IH]; [done|]. simpl.
  rewrite !elem_of_cons, list_elem_of_filter, IH.
  destruct (decide (k = k0)); [by subst; split; left|]. tauto.
Qed.

Lemma elem_of_keys_count_item_sets (ts : list transaction) (k : itemset) :
  k ∈ dict_keys (count_item_sets ts) ↔ ∃ t, t ∈ ts ∧ contains t k.
Proof.
  rewrite dict_keys_count_item_sets, elem_of_first_occurrences,
    list_elem_of_bind. split.
  - intros (t & Hk%elem_of_generate_item_sets & Ht). eauto.
  - intros (t & Ht & Hk). exists t. by rewrite elem_of_generate_item_sets.
Qed.

(** X7: the mapping that [count_item_sets] returns has pairwise distinct
    keys, in the order in which the enumeration of the transactions first
    emits them; its keys are exactly the non-empty subsequences of the
    transactions, and it stores no count below 1. *)
Theorem count_item_sets_entries (ts : list transaction) :
  NoDup (dict_keys (count_item_sets ts)) ∧
  dict_keys (count_item_sets ts)
  = first_occurrences (ts ≫= λ t, generate_item_sets t (length t)) ∧
  (∀ k, k ∈ dict_keys (count_item_sets ts) ↔
        ∃ t, t ∈ ts ∧ k ≠ [] ∧ k `sublist_of` t) ∧
  (∀ k c, dict_get (count_item_sets ts) k = Some c → 1 ≤ c).
Proof.
  split_and!.
  - apply NoDup_keys_count_item_sets.
  - apply dict_keys_count_item_sets.
  - apply elem_of_keys_count_item_sets.
  - intros k c Hc%count_item_sets_positive. lia.
Qed.

(** X8: the count of an itemset over two lists of transactions put
    together is the sum of its counts over each, and it does not depend on
    the order of the transactions. *)
Theorem count_item_sets_additive (ts1 ts2 : list transaction) (k : itemset) :
  count_of (count_item_sets (ts1 ++ ts2)) k
  = count_of (count_item_sets ts1) k + count_of (count_item_sets ts2) k ∧
  (ts1 ≡ₚ ts2 →
   count_of (count_item_sets ts1) k = count_of (count_item_sets ts2) k).
Proof.
  rewrite !count_of_count_item_sets. split.
  - rewrite sum_list_with_app. lia.
  - intros Hperm. by rewrite Hperm.
Qed.

Lemma count_item_sets_additive_witness :
  count_of (count_item_sets [[a_; b_]; [a_]]) [a_]
  = count_of (count_item_sets [[a_]; [a_; b_]]) [a_].
Proof.
  apply (count_item_sets_additive [[a_; b_]; [a_]] [[a_]; [a_; b_]]).
  apply Permutation_swap.
Defined.

(** X9: when no transaction has a repeated item, a non-empty subsequence
    of an itemset is counted at least as often as the itemset. *)
Theorem count_item_sets_antimonotone (ts : list transaction)
    (item_set x : itemset) :
  Forall NoDup ts → x ≠ [] → x `sublist_of` item_set →
  count_of (count_item_sets ts) item_set ≤ count_of (count_item_sets ts) x.
Proof. apply count_sublist_le. Qed.

Lemma count_item_sets_antimonotone_witness :
  count_of (count_item_sets sample_transactions) [a_; b_]
  ≤ count_of (count_item_sets sample_transactions) [b_].
Proof.
  apply count_item_sets_antimonotone.
  - apply (bool_decide_unpack _). vm_compute. exact I.
  - done.
  - apply sublist_cons. reflexivity.
Defined.

(** ** More about the support filter *)

(** X10: filtering what [filter_item_sets] returned, with the same threshold
    and total, returns it unchanged. *)
Theorem filter_item_sets_idempotent {F : Type} {ops : PyFloat F}
    (min_support : F) (d kept : dict Z) (total : Z) :
  filter_item_sets min_support d total = Ok kept →
  filter_item_sets min_support kept total = Ok kept.
Proof.
  intros [-> [->|Htotal]]%filter_item_sets_Ok; [done|].
  rewrite filter_item_sets_nonzero by done. f_equal.
  by apply list_filter_filter_l.
Qed.

Lemma filter_item_sets_idempotent_witness :
  filter_item_sets default_min_support [([a_], 2)] 4 = Ok [([a_], 2)].
Proof.
  apply (filter_item_sets_idempotent default_min_support
           [([a_], 2); ([b_], 1)]).
  vm_compute. reflexivity.
Defined.

(** X11: on a mapping with pairwise distinct keys, what [filter_item_sets]
    returns has pairwise distinct keys in the order of the argument, and
    looking a key up in it gives the count of the argument if that count
    meets the threshold and nothing otherwise. *)
Theorem filter_item_sets_lookup {F : Type} {ops : PyFloat F}
    (min_support : F) (d kept : dict Z) (total : Z) :
  NoDup (dict_keys d) →
  filter_item_sets min_support d total = Ok kept →
  NoDup (dict_keys kept) ∧
  dict_keys kept `sublist_of` dict_keys d ∧
  ∀ k, dict_get kept k
       = match dict_get d k with
         | Some c => if fge (truediv c total) min_support then Some c else None
         | None => None
         end.
Proof.
  intros Hd Hfilter.
  pose proof (filter_item_sets_keys _ _ _ _ Hfilter) as Hsub.
  split_and!; [by eapply sublist_NoDup|done|].
  intros k. by rewrite (filter_item_sets_get _ _ _ _ k Hd Hfilter).
Qed.

Lemma filter_item_sets_lookup_witness :
  NoDup (dict_keys [([a_], 2)]) ∧
  dict_keys [([a_], 2)] `sublist_of` dict_keys [([a_], 2); ([b_], 1)] ∧
  ∀ k, dict_get [([a_], 2)] k
       = match dict_get [([a_], 2); ([b_], 1)] k with
         | Some c =>
             if fge (truediv c 4) default_min_support then Some c else None
         | None => None
         end.
Proof.
  apply (filter_item_sets_lookup default_min_support).
  - apply (bool_decide_unpack _). vm_compute. exact I.
  - vm_compute. reflexivity.
Defined.

(** ** More about [generate_rules] *)

Lemma bind_raised {A1 A2 B1 B2} (m1 : result A1) (m2 : result A2)
    (k1 : A1 → result B1) (k2 : A2 → result B2) :
  raised m1 = raised m2 →
  (∀ a1 a2, m1 = Ok a1 → m2 = Ok a2 → raised (k1 a1) = raised (k2 a2)) →
  raised (bind m1 k1) = raised (bind m2 k2).
Proof. destruct m1, m2; simpl; try done. intros _ Hk. by apply Hk. Qed.

(** Whether and what a loop raises does not depend on the state it
    threads, as long as that holds of its body. *)
Lemma for_each_raised {A S1 S2} (xs : list A)
    (body1 : A → S1 → result S1) (body2 : A → S2 → result S2)
    (s1 : S1) (s2 : S2) :
  (∀ a s1 s2, a ∈ xs → raised (body1 a s1) = raised (body2 a s2)) →
  raised (for_each xs body1 s1) = raised (for_each xs body2 s2).
Proof.
  revert s1 s2. induction xs as [|a xs IH]; intros s1 s2 Hbody; [done|].
  simpl. apply bind_raised; [apply Hbody; left|].
  intros ?? _ _. apply IH. intros ????. apply Hbody. by right.
Qed.



Section MoreRuleFacts.
Context {F : Type} {ops : PyFloat F}.
Implicit Types (frequent : dict Z) (total : Z).

(** Whether and what [generate_rules] raises does not depend on
    [min_conf]. *)
Lemma generate_rules_raised (min_conf1 min_conf2 : F) frequent total :
  raised (generate_rules min_conf1 frequent total)
  = raised (generate_rules min_conf2 frequent total).
Proof.
  unfold generate_rules.
  apply for_each_raised. intros item_set rules1 rules2 _.
  apply for_each_raised. intros i rules3 rules4 _.
  apply bind_raised; [done|]. intros supports ? -> [= <-].
  apply for_each_raised. intros x rules5 rules6 _.
  repeat (apply bind_raised; [done|]; intros ?? -> [= <-]).
  by destruct (fge _ min_conf1), (fge _ min_conf2).
Qed.


(** X13: raising [min_conf] never changes whether or what
    [generate_rules] raises, and never adds a rule: the rules under the
    higher threshold are among the rules under the lower one, in the same
    order. *)
Theorem generate_rules_min_conf {laws : PyFloatLaws F} (lower higher : F)
    frequent total :
  raised (generate_rules higher frequent total)
  = raised (generate_rules lower frequent total) ∧
  (fge higher lower = true →
   ∀ rules_higher rules_lower,
     generate_rules higher frequent total = Ok rules_higher →
     generate_rules lower frequent total = Ok rules_lower →
     rules_higher `sublist_of` rules_lower ∧
     (length rules_higher ≤ length rules_lower)%nat).
Proof.
  split; [apply generate_rules_raised|].
  intros Hge rules_higher rules_lower ->%generate_rules_Ok ->%generate_rules_Ok.
  assert (rule_of frequent total
            <$> filter (meets_conf higher frequent) (candidates frequent)
          `sublist_of`
          rule_of frequent total
            <$> filter (meets_conf lower frequent) (candidates frequent))
    as Hsub.
  { apply fmap_sublist, filter_sublist_impl. unfold meets_conf.
    intros c _ Hc. by eapply fge_trans. }
  split; [done|]. by apply sublist_length.
Qed.

Lemma candidates_length frequent :
  length (candidates frequent)
  = sum_list_with (λ item_set, 2 ^ length item_set - 2)%nat (dict_keys frequent).
Proof.
  unfold candidates. rewrite length_bind. apply sum_list_with_ext_in.
  intros item_set _. rewrite length_bind. unfold range.
  rewrite (sum_list_with_ext_in _ (λ i, length (combinations item_set i)))
    by (intros; apply length_fmap).
  destruct (length item_set) as [|k] eqn:Hk; [done|].
  pose proof (combinations_total item_set) as Htotal.
  rewrite Hk, seq_S, sum_list_with_app in Htotal. simpl in Htotal.
  rewrite <-Hk, combinations_all in Htotal. simpl in Htotal.
  replace (S k - 1)%nat with k by lia.
  rewrite Nat.pow_succ_r'. pose proof (Nat.pow_nonzero 2 k). lia.
Qed.

(** X14: an itemset of [k] items has [2^k - 2] candidate antecedents, none
    when [k] is 1, so [generate_rules] never returns more rules than the
    sum of [2^k - 2] over the itemsets of the mapping. *)
Theorem generate_rules_count (min_conf : F) frequent total
    (rules : list (rule F)) :
  generate_rules min_conf frequent total = Ok rules →
  length (candidates frequent)
  = sum_list_with (λ item_set, 2 ^ length item_set - 2)%nat
      (dict_keys frequent) ∧
  (length rules
   ≤ sum_list_with (λ item_set, 2 ^ length item_set - 2)%nat
       (dict_keys frequent))%nat.
Proof.
  intros ->%generate_rules_Ok. rewrite <-candidates_length.
  split; [done|]. rewrite length_fmap. apply length_filter.
Qed.
End MoreRuleFacts.

Lemma generate_rules_min_conf_witness :
  ∃ rules_lower,
    generate_rules (1 # 2)%Q sample_frequent 3 = Ok rules_lower ∧
    sample_rules `sublist_of` rules_lower ∧
    (length sample_rules ≤ length rules_lower)%nat.
Proof.
  destruct (generate_rules_min_conf (1 # 2)%Q default_min_conf
              sample_frequent 3) as [_ Hmono].
  assert (∃ rules_lower,
            generate_rules (1 # 2)%Q sample_frequent 3 = Ok rules_lower)
    as [rules_lower Hlower] by (vm_compute; eauto).
  exists rules_lower. split; [exact Hlower|].
  eapply Hmono; [reflexivity| |exact Hlower]. vm_compute. reflexivity.
Defined.

Lemma generate_rules_count_witness :
  length (candidates sample_frequent)
  = sum_list_with (λ item_set, 2 ^ length item_set - 2)%nat
      (dict_keys sample_frequent) ∧
  (length sample_rules
   ≤ sum_list_with (λ item_set, 2 ^ length item_set - 2)%nat
       (dict_keys sample_frequent))%nat.
Proof.
  apply (generate_rules_count default_min_conf sample_frequent 3).
  vm_compute. reflexivity.
Defined.

(** ** More about the pipeline *)

Section MorePipelineFacts.
Context {F : Type} {ops : PyFloat F}.
Implicit Types (frequent : dict Z) (ts cells : list transaction).

(** Every rule of a returning run comes from a candidate of an itemset
    that some transaction contains. *)
Lemma analyze_associations_origin (min_support min_conf : F) ts
    (rules : list (rule F)) (r : rule F) :
  analyze_associations min_support min_conf ts = Ok rules → r ∈ rules →
  ∃ item_set t,
    t ∈ ts ∧ item_set `sublist_of` t ∧
    rule_x r `sublist_of` item_set ∧
    (1 ≤ length (rule_x r) < length item_set)%nat ∧
    rule_y r = list_to_set item_set ∖ list_to_set (rule_x r).
Proof.
  intros (frequent & Hfilter & ->%generate_rules_Ok)%analyze_associations_Ok.
  intros ([S x] & -> & [_ Hc]%list_elem_of_filter)%list_elem_of_fmap.
  apply candidates_elem_of in Hc as (HS & Hsub & Hlen).
  apply filter_item_sets_keys in Hfilter.
  eapply sublist_subseteq in HS; [|done].
  apply elem_of_keys_count_item_sets in HS as (t & Ht & _ & HSt).
  exists S, t. simpl. split_and!; (done || lia).
Qed.

(** X15: when no transaction has a repeated item, every rule that
    [analyze_associations] returns has an antecedent without repeated
    items and a non-empty consequent, whose size is the size of the
    originating itemset less the size of the antecedent. *)
Theorem analyze_associations_consequents (min_support min_conf : F) ts
    (rules : list (rule F)) :
  Forall NoDup ts →
  analyze_associations min_support min_conf ts = Ok rules →
  Forall (λ r,
      NoDup (rule_x r) ∧ rule_y r ≠ ∅ ∧
      ∃ item_set, item_set ∈ dict_keys (count_item_sets ts) ∧
        size (rule_y r) = (length item_set - length (rule_x r))%nat)
    rules.
Proof.
  intros Hts Hrun. apply Forall_forall. intros r Hr.
  destruct (analyze_associations_origin _ _ _ _ _ Hrun Hr)
    as (S & t & Ht & HSt & Hsub & Hlen & Hy).
  assert (NoDup S) as HS.
  { apply (sublist_NoDup S t); [|done]. by eapply Forall_forall in Hts. }
  assert (NoDup (rule_x r)) as Hx by exact (sublist_NoDup _ _ HS Hsub).
  assert (size (rule_y r) = (length S - length (rule_x r))%nat) as Hsize.
  { rewrite Hy, size_difference, !size_list_to_set; [done..|].
    intros a. rewrite !elem_of_list_to_set. by apply sublist_subseteq. }
  split_and!; [done| |].
  - intros Hempty. rewrite Hempty, size_empty in Hsize. lia.
  - exists S. split; [|done]. apply elem_of_keys_count_item_sets.
    exists t. split; [done|]. split; [|done]. intros ->. simpl in Hlen. lia.
Qed.

(** X16: when every transaction is in ascending order, so is every key of
    the count mapping and the antecedent of every rule that
    [analyze_associations] returns. *)
Theorem analyze_associations_canonical (min_support min_conf : F) ts
    (rules : list (rule F)) :
  Forall (Sorted str_le) ts →
  Forall (Sorted str_le) (dict_keys (count_item_sets ts)) ∧
  (analyze_associations min_support min_conf ts = Ok rules →
   Forall (λ r, Sorted str_le (rule_x r)) rules).
Proof.
  intros Hts.
  assert (∀ k t, t ∈ ts → k `sublist_of` t → Sorted str_le k) as Hsorted.
  { intros k t Ht Hk. apply StronglySorted_Sorted.
    eapply StronglySorted_sublist; [done|].
    apply (Sorted_StronglySorted str_le). by eapply Forall_forall in Hts. }
  split.
  - apply Forall_forall.
    intros k (t & Ht & _ & Hk)%elem_of_keys_count_item_sets. eauto.
  - intros Hrun. apply Forall_forall. intros r Hr.
    destruct (analyze_associations_origin _ _ _ _ _ Hrun Hr)
      as (S & t & Ht & HSt & Hsub & _). apply (Hsorted _ t); [done|].
    by etrans.
Qed.

(** X17: every item of every rule that [analyze_associations] returns is
    in the set of items that [output] prints for the same transactions. *)
Theorem output_items_cover (min_support min_conf : F) cells
    (rules : list (rule F)) (r : rule F) :
  analyze_associations min_support min_conf cells = Ok rules → r ∈ rules →
  list_to_set (rule_x r) ∪ rule_y r ⊆ output_items cells.
Proof.
  intros Hrun Hr.
  destruct (analyze_associations_origin _ _ _ _ _ Hrun Hr)
    as (S & t & Ht & HSt & Hsub & _ & Hy).
  assert (∀ a, a ∈ S → a ∈ output_items cells) as HS.
  { intros a Ha. apply elem_of_list_to_set, list_elem_of_bind.
    exists t. split; [|done]. apply list_elem_of_bind. exists a.
    split; [left|]. by eapply sublist_subseteq. }
  intros a [Ha%elem_of_list_to_set|Ha]%elem_of_union.
  - apply HS. by eapply sublist_subseteq.
  - rewrite Hy in Ha. apply elem_of_difference in Ha as [Ha _].
    apply HS. by apply elem_of_list_to_set in Ha.
Qed.
End MorePipelineFacts.

Lemma analyze_associations_consequents_witness :
  Forall (λ r : rule Q,
      NoDup (rule_x r) ∧ rule_y r ≠ ∅ ∧
      ∃ item_set, item_set ∈ dict_keys (count_item_sets sample_transactions) ∧
        size (rule_y r) = (length item_set - length (rule_x r))%nat)
    sample_analysis.
Proof.
  apply (analyze_associations_consequents default_min_support default_min_conf
           sample_transactions).
  - apply (bool_decide_unpack _). vm_compute. exact I.
  - vm_compute. reflexivity.
Defined.

Lemma analyze_associations_canonical_witness :
  Forall (Sorted str_le) (dict_keys (count_item_sets sample_transactions)) ∧
  Forall (λ r : rule Q, Sorted str_le (rule_x r)) sample_analysis.
Proof.
  destruct (analyze_associations_canonical default_min_support
              default_min_conf sample_transactions sample_analysis)
    as [Hkeys Hrules].
  - apply (bool_decide_unpack _). vm_compute. exact I.
  - split; [exact Hkeys|]. apply Hrules. vm_compute. reflexivity.
Defined.

Lemma output_items_cover_witness :
  Forall (λ r : rule Q,
      list_to_set (rule_x r) ∪ rule_y r ⊆ output_items sample_transactions)
    sample_analysis.
Proof.
  apply Forall_forall. intros r.
  apply (output_items_cover default_min_support default_min_conf
           sample_transactions sample_analysis r).
  vm_compute. reflexivity.
Defined.

(** ** From the CSV text to the rules *)

(** An ascending list without repeated elements is strictly ascending. *)
Lemma Sorted_NoDup_strict (row : list item) :
  Sorted str_le row → NoDup row → StronglySorted str_lt row.
Proof.
  intros Hsorted%(Sorted_StronglySorted str_le) Hnodup.
  induction Hsorted as [|s row _ IH Hs]; [constructor|].
  apply NoDup_cons in Hnodup as [Hnotin Hnodup]. constructor; [auto|].
  apply Forall_forall. intros s' Hs'. eapply Forall_forall in Hs; [|done].
  destruct (str_lt_trichotomy s s') as [?|[->|?]]; done.
Qed.

Section ScriptFacts.
Context {F : Type} {ops : PyFloat F} {laws : PyFloatLaws F}.

(** X18: when no line after the first repeats a cell, the transactions that
    [split_cells] returns are strictly ascending, so is every key of the
    count mapping, and [analyze_associations] on them raises no [KeyError]
    and no division error on a count or on the total: the one exception it
    can raise is the division by a slice denominator [0.0]. *)
Theorem split_cells_analysis (min_support min_conf : F) (csv : string)
    (cells : list (list item)) :
  split_cells csv = inr cells →
  Forall NoDup (split comma <$> tail (splitlines csv)) →
  Forall (StronglySorted str_lt) cells ∧
  Forall (StronglySorted str_lt) (dict_keys (count_item_sets cells)) ∧
  ∀ e, analyze_associations min_support min_conf cells = Raise e →
       e = ZeroDivisionError FloatDiv.
Proof.
  rewrite split_cells_unfold.
  destruct (splitlines csv) as [|header lines]; [done|]. intros [= <-].
  simpl. intros Hrows.
  assert (Forall (StronglySorted str_lt) ((λ line, list_sort (split comma line)) <$> lines))
    as Hcells.
  { apply Forall_fmap. rewrite Forall_fmap in Hrows.
    eapply Forall_impl; [exact Hrows|]. intros line Hline. simpl in *.
    apply Sorted_NoDup_strict; [apply list_sort_Sorted|].
    by rewrite list_sort_Permutation. }
  assert (Forall NoDup ((λ line, list_sort (split comma line)) <$> lines)) as Hnodup.
  { eapply Forall_impl; [exact Hcells|]. intros row.
    apply (StronglySorted_NoDup str_lt). }
  split_and!; [done| |].
  - apply Forall_forall.
    intros k (t & Ht & _ & Hk)%elem_of_keys_count_item_sets.
    eapply StronglySorted_sublist; [done|]. by eapply Forall_forall in Hcells.
  - intros e.
    destruct (filter_item_sets_pipeline_Ok min_support
                ((λ line, list_sort (split comma line)) <$> lines)) as [frequent Hfilter].
    unfold analyze_associations. rewrite Hfilter. cbn [bind].
    intros (S & x & Hc & Herr)%generate_rules_Raise.
    destruct (candidate_lookups _ _ _ _ _ Hnodup Hfilter Hc)
      as (Htotal & cS & c & _ & Hget & Hc1).
    destruct Herr as [[-> _]|[_ [?|[?|?]]]]; [done|lia|congruence|].
    assert (c = 0) by congruence. lia.
Qed.
End ScriptFacts.

Lemma split_cells_analysis_witness :
  Forall (StronglySorted str_lt) sample_transactions ∧
  Forall (StronglySorted str_lt) (dict_keys (count_item_sets sample_transactions)) ∧
  ∀ e, analyze_associations default_min_support default_min_conf
         sample_transactions = Raise e →
       e = ZeroDivisionError FloatDiv.
Proof.
  apply (split_cells_analysis default_min_support default_min_conf sample_csv).
  - vm_compute. reflexivity.
  - apply (bool_decide_unpack _). vm_compute. exact I.
Defined.
